(** * env: binding environment variables to struct fields

    A shallow embedding of the Go package [env] and a verification of its
    specification.  The package populates the exported fields of a struct
    from the process environment, driven by [env:"NAME[,option]*"] struct
    tags.

        The sources hold two revisions of the package that carry the [Default]
    tag attribute:

    - src/env.go, embedded in [Module Loose]: [os.Getenv] with an emptiness
      test, unknown tag options ignored, kinds string, int and slice;
    - the second file of src/unnamed/part_000, embedded in [Module Strict]:
      [os.LookupEnv], strict tag options, nested structs, [setField] over
      string, int*, bool, float* and slice.  Its messages, its types and its
      lookup are those the specification describes.

        The first file of src/unnamed/part_000 is an earlier revision (no
    default, no [parseSlice], conversion errors dropped); the specification
    does not draw on it.  It is embedded in [Module Early].


    Modelling choices, common to both:

    - a Go [string] is a sequence of bytes: [string] of the Standard Library;
        - the environment is a finite map from names to values ([gmap]), looked
      up by exact name; the binder only reads it;
    - a [reflect.Value] is a tree ([Value]) that knows its own type; a struct
      value carries the [reflect.StructField] of each field next to the
      field's value.  Pointers are owned references (the heap reachable from
      the record is a finite tree), so a mutation through a pointer is the
      replacement of the pointee in the tree;
    - declared types are built from the predeclared types (no defined types),
      so [reflect.Value.Set] of a [[]string] or [[]int] never panics;
    - [int] is 64 bits wide;
    - [strconv.ParseFloat] and the conversion to [float32] are taken as
      parameters ([Strconv.Floats]).
    - an error value is a term that records the format arguments of its
      message; [%w] wrapping is a constructor with an inner error. *)

From Stdlib Require Import ZArith Ascii String.
From stdpp Require Import gmap strings list.

Set Warnings "-register-all".
#[local] Open Scope Z_scope.

(** ** Package [strings] *)

Module Strings.

(** [strings.HasPrefix(s, prefix)] *)
Fixpoint HasPrefix (s prefix : string) {struct prefix} : bool :=
  match prefix, s with
  | EmptyString, _ => true
  | String p prefix', String c s' => Ascii.eqb c p && HasPrefix s' prefix'
  | String _ _, EmptyString => false
  end.

(** [strings.Split(s, sep)] for a separator of one byte, the only kind the
    package uses ([","]).  The result is never empty: a string without
    separator, the empty string included, yields the string itself. *)
Fixpoint Split (s : string) (sep : ascii) : list string :=
  match s with
  | EmptyString => [EmptyString]
  | String c s' =>
      if Ascii.eqb c sep then EmptyString :: Split s' sep
      else match Split s' sep with
           | [] => [String c EmptyString]
           | x :: xs => String c x :: xs
           end
  end.

(** The text of [s] before its first [sep], and the text after it when
    [sep] occurs in [s]. *)
Fixpoint Cut (s : string) (sep : ascii) : string * option string :=
  match s with
  | EmptyString => (EmptyString, None)
  | String c s' =>
      if Ascii.eqb c sep then (EmptyString, Some s')
      else let '(before, after) := Cut s' sep in (String c before, after)
  end.

(** The loop of [strings.SplitN] while [n > 0] substrings remain to be
    produced; the last one is the unsplit remainder. *)
Fixpoint splitN (s : string) (sep : ascii) (n : nat) : list string :=
  match n with
  | O => []
  | S O => [s]
  | S n' =>
      match Cut s sep with
      | (before, None) => [before]
      | (before, Some after) => before :: splitN after sep n'
      end
  end.

(** [strings.SplitN(s, sep, n)] for a separator of one byte: [n = 0] gives
    nil, [n < 0] all substrings, [n > 0] at most [n] substrings. *)
Definition SplitN (s : string) (sep : ascii) (n : Z) : list string :=
  if n <? 0 then Split s sep else splitN s sep (Z.to_nat n).

(** [strings.Join(elems, sep)] for a separator of one byte. *)
Fixpoint Join (elems : list string) (sep : ascii) : string :=
  match elems with
  | [] => EmptyString
  | [x] => x
  | x :: (_ :: _) as rest => String.append x (String sep (Join rest sep))
  end.

(** [s[n:]] for [n <= len(s)] *)
Fixpoint sliceFrom (n : nat) (s : string) : string :=
  match n, s with
  | O, _ => s
  | S n', String _ s' => sliceFrom n' s'
  | S _, EmptyString => EmptyString
  end.

(** the byte [c] occurs in [s] ([strings.IndexByte(s, c) >= 0]) *)
Fixpoint contains (s : string) (c : ascii) : bool :=
  match s with
  | EmptyString => false
  | String c' s' => Ascii.eqb c' c || contains s' c
  end.

(** [len(s)] *)
Definition len (s : string) : Z := Z.of_nat (String.length s).

(** [s == ""] *)
Definition isEmpty (s : string) : bool :=
  match s with EmptyString => true | _ => false end.

End Strings.

(** ** Package [strconv] *)

Module Strconv.

(** [strconv.ErrSyntax], [strconv.ErrRange] and the error of an invalid
    bit size *)
Inductive Err := ErrSyntax | ErrRange | ErrBitSize (bitSize : Z).

(** [strconv.NumError] *)
Record NumError := mkNumError { Func : string; Num : string; Err_ : Err }.

(** [strconv.IntSize] *)
Definition IntSize : Z := 64.

(** the value of a decimal digit, [None] for any other byte *)
Definition digit (c : ascii) : option Z :=
  let n := Z.of_N (N_of_ascii c) in
  if (48 <=? n) && (n <=? 57) then Some (n - 48) else None.

Definition maxUint64 : Z := 2 ^ 64 - 1.

(** The loop of [strconv.ParseUint] in base 10: [n] is the number read so
    far, [maxVal = 1<<bitSize - 1]. *)
Fixpoint parseUintLoop (s : string) (n maxVal : Z) : Z + Err :=
  match s with
  | EmptyString => inl n
  | String c s' =>
      match digit c with
      | None => inr ErrSyntax
      | Some d =>
          if maxUint64 / 10 + 1 <=? n then inr ErrRange
          else
            let n1 := n * 10 + d in
            if maxVal <? n1 then inr ErrRange else parseUintLoop s' n1 maxVal
      end
  end.

(** [strconv.ParseUint(s, 10, bitSize)], the base fixed to 10 *)
Definition ParseUint (s : string) (bitSize : Z) : Z + Err :=
  match s with
  | EmptyString => inr ErrSyntax
  | _ =>
      let bitSize' := if bitSize =? 0 then IntSize else bitSize in
      if (bitSize' <? 0) || (64 <? bitSize') then inr (ErrBitSize bitSize)
      else parseUintLoop s 0 (2 ^ bitSize' - 1)
  end.

(** [strconv.ParseInt(s, 10, bitSize)], the base fixed to 10, reported
    under the function name [fn] *)
Definition parseInt (fn : string) (s : string) (bitSize : Z) : Z + NumError :=
  match s with
  | EmptyString => inr (mkNumError fn s ErrSyntax)
  | String c0 s1 =>
      let neg := Ascii.eqb c0 "-"%char in
      let digits := if Ascii.eqb c0 "+"%char || neg then s1 else s in
      let bitSize' := if bitSize =? 0 then IntSize else bitSize in
      let cutoff := 2 ^ (bitSize' - 1) in
      match ParseUint digits bitSize with
      | inr ErrRange => inr (mkNumError fn s ErrRange)
      | inr e => inr (mkNumError fn s e)
      | inl un =>
          if negb neg && (cutoff <=? un) then inr (mkNumError fn s ErrRange)
          else if neg && (cutoff <? un) then inr (mkNumError fn s ErrRange)
          else inl (if neg then - un else un)
      end
  end.

Definition ParseInt (s : string) (bitSize : Z) : Z + NumError :=
  parseInt "ParseInt" s bitSize.

(** [strconv.Atoi(s)]: [ParseInt(s, 10, 0)] reported as [Atoi] (the fast
    path for short strings computes the same result) *)
Definition Atoi (s : string) : Z + NumError :=
  parseInt "Atoi" s 0.

(** [strconv.ParseBool(str)] *)
Definition ParseBool (str : string) : bool + NumError :=
  if (str =? "1")%string || (str =? "t")%string || (str =? "T")%string
     || (str =? "true")%string || (str =? "TRUE")%string || (str =? "True")%string
  then inl true
  else if (str =? "0")%string || (str =? "f")%string || (str =? "F")%string
     || (str =? "false")%string || (str =? "FALSE")%string || (str =? "False")%string
  then inl false
  else inr (mkNumError "ParseBool" str ErrSyntax).

(** Floating point: the type of [float64] values, [strconv.ParseFloat(s,
    bitSize)] and the conversion [float64(float32(x))] are parameters. *)
Class Floats := {
  float64 : Type;
  ParseFloat : string -> Z -> float64 + NumError;
  toFloat32 : float64 -> float64
}.

End Strconv.

(** ** Package [os] *)

Module Os.

(** The environment table of the process. *)
Abbreviation Environ := (gmap string string).

(** [os.LookupEnv(key)] *)
Definition LookupEnv (environ : Environ) (key : string) : option string :=
  environ !! key.

(** [os.Getenv(key)]: the empty string for an unset variable *)
Definition Getenv (environ : Environ) (key : string) : string :=
  match environ !! key with
  | Some value => value
  | None => EmptyString
  end.

End Os.

(** ** Package [reflect] *)

Module Reflect.
Import Strconv.

(** [reflect.StructTag], in the conventional format [key:"value" ...],
    as the list of its pairs *)
Definition StructTag := list (string * string).

(** [StructTag.Lookup(key)]: the value of the first pair under [key] *)
Fixpoint Lookup (tag : StructTag) (key : string) : option string :=
  match tag with
  | [] => None
  | (k, v) :: tag' => if (k =? key)%string then Some v else Lookup tag' key
  end.

(** [reflect.StructField], without [Type] (kept with the field's value),
    [Offset] and [Index] *)
Record StructField := mkStructField {
  Name : string;
  PkgPath : string;
  Tag : StructTag
}.

(** [StructField.IsExported()] *)
Definition IsExported (f : StructField) : bool := Strings.isEmpty (PkgPath f).

(** Kinds [Int], [Int8], [Int16], [Int32], [Int64] *)
Inductive intKind := Int | Int8 | Int16 | Int32 | Int64.

(** Kinds [Float32], [Float64] *)
Inductive floatKind := Float32 | Float64.

(** The kinds whose values the binder neither reads nor writes *)
Inductive opaqueKind :=
| Uint | Uint8 | Uint16 | Uint32 | Uint64 | Uintptr
| Complex64 | Complex128
| Array | Chan | Func | Interface | Map | UnsafePointer.

(** [reflect.Type] *)
Inductive type :=
| TBool
| TInt (k : intKind)
| TFloat (k : floatKind)
| TString
| TSlice (elem : type)
| TPtr (elem : type)
| TStruct (fields : list (StructField * type))
| TOpaque (k : opaqueKind).

(** [reflect.Value] of a valid value *)
Inductive Value `{Floats} :=
| VBool (b : bool)
| VInt (k : intKind) (n : Z)
| VFloat (k : floatKind) (x : float64)
| VString (s : string)
| VSlice (elem : type) (xs : option (list Value))   (* [None]: nil slice *)
| VNilPtr (elem : type)
| VPtr (target : Value)
| VStruct (fields : list (StructField * Value))
| VOpaque (k : opaqueKind).

(** An interface value [any]: [None] is the nil interface, for which
    [reflect.ValueOf] returns the zero [reflect.Value] of kind [Invalid]. *)
Definition any `{Floats} : Type := option Value.

Section with_floats.
Context `{Floats}.

(** [Value.Type()] *)
Fixpoint TypeOf (v : Value) : type :=
  match v with
  | VBool _ => TBool
  | VInt k _ => TInt k
  | VFloat k _ => TFloat k
  | VString _ => TString
  | VSlice elem _ => TSlice elem
  | VNilPtr elem => TPtr elem
  | VPtr target => TPtr (TypeOf target)
  | VStruct fields => TStruct (map (fun fv => (fv.1, TypeOf fv.2)) fields)
  | VOpaque k => TOpaque k
  end.

(** the width in bits of an integer kind *)
Definition bits (k : intKind) : Z :=
  match k with
  | Int => IntSize | Int8 => 8 | Int16 => 16 | Int32 => 32 | Int64 => 64
  end.

(** the conversion of an [int64] to a signed integer of [w] bits *)
Definition wrap (w : Z) (x : Z) : Z :=
  (x + 2 ^ (w - 1)) mod 2 ^ w - 2 ^ (w - 1).

(** [Value.SetInt(x)] on a value of kind [k] *)
Definition SetInt (k : intKind) (x : Z) : Value := VInt k (wrap (bits k) x).

(** [Value.SetFloat(x)] on a value of kind [k] *)
Definition SetFloat (k : floatKind) (x : float64) : Value :=
  match k with
  | Float32 => VFloat Float32 (toFloat32 x)
  | Float64 => VFloat Float64 x
  end.

(** [reflect.ValueOf(xs)] for [xs []string] and for [xs []int] *)
Definition stringSlice (xs : list string) : Value :=
  VSlice TString (Some (map VString xs)).
Definition intSlice (xs : list Z) : Value :=
  VSlice (TInt Int) (Some (map (VInt Int) xs)).

(** [reflect.MakeSlice(reflect.SliceOf(elemType), 0, 0)] *)
Definition MakeSlice0 (elemType : type) : Value := VSlice elemType (Some []).

(** The loop [for i := 0; i < rt.NumField(); i++ { body }] over the
    fields of a struct, shared by both revisions.  [body field
    fieldValue] is one iteration: the value of the field after it, and
    [Some err] when the iteration returns [err] from the enclosing
    function, [None] when the loop goes on ([continue] included).  The
    result is the fields after the loop and the error returned. *)
Fixpoint fieldLoop {E : Type} (body : StructField -> Value -> Value * option E)
    (fields : list (StructField * Value)) : list (StructField * Value) * option E :=
  match fields with
  | [] => ([], None)
  | (field, fieldValue) :: rest =>
      match body field fieldValue with
      | (fieldValue', Some err) => ((field, fieldValue') :: rest, Some err)
      | (fieldValue', None) =>
          let '(rest', err) := fieldLoop body rest in
          ((field, fieldValue') :: rest', err)
      end
  end.

(** [&T{fields}] as an [any] *)
Definition record (fields : list (StructField * Value)) : any :=
  Some (VPtr (VStruct fields)).

End with_floats.

End Reflect.

(** ** The strict revision (src/unnamed/part_000, second file) *)

Module Strict.
Import Strconv Reflect Os.

(** [Tag] represents the parsed [env] tag. *)
Record Tag := mkTag { Env : string; Optional : bool; Default : string }.

(** [Tag{}] *)
Definition zeroTag : Tag := mkTag EmptyString false EmptyString.

(** The errors of the package, one constructor per [errors.New] and
    [fmt.Errorf] of the source. *)
Inductive error :=
| errNonNilPointer                               (* input must be a non-nil pointer *)
| errNotStruct                                   (* value must be a struct *)
| errInvalidTag (field : string) (err : error)   (* invalid tag format for field %s: %w *)
| errRequiredNotSet (env : string)               (* required environment variable %s not set *)
| errSetField (field : string) (err : error)     (* failed to set field %s: %w *)
| errTagEmpty                                    (* env tag must not be empty *)
| errTagNoName                                   (* env tag must have a name *)
| errDefaultNoValue                              (* default tag must have a value *)
| errUnknownOption (part : string)               (* unknown tag option: %s *)
| errCannotSet                                   (* cannot set field value *)
| errParseInt (value : string) (err : NumError)  (* cannot parse %s as int: %w *)
| errParseBool (value : string) (err : NumError) (* cannot parse %s as bool: %w *)
| errParseFloat (value : string) (err : NumError)(* cannot parse %s as float: %w *)
| errUnsupportedField (t : type)                 (* unsupported field type %s *)
| errUnsupportedElem (t : type).                 (* unsupported slice element type %s *)

(** The loop of [parseTag] over [parts[1:]], from the tag [result] built so
    far. *)
Fixpoint parseOptions (parts : list string) (result : Tag) : Tag * bool * option error :=
  match parts with
  | [] => (result, true, None)
  | part :: parts' =>
      if (part =? "optional")%string then
        parseOptions parts' (mkTag (Env result) true (Default result))
      else if (part =? "default")%string then
        (zeroTag, false, Some errDefaultNoValue)
      else if Strings.HasPrefix part "default=" then
        if Strings.len part <=? 8 then (zeroTag, false, Some errDefaultNoValue)
        else parseOptions parts' (mkTag (Env result) (Optional result) (Strings.sliceFrom 8 part))
      else (zeroTag, false, Some (errUnknownOption part))
  end.

(** [parseTag] parses the struct tag to extract environment variable
    configuration. *)
Definition parseTag (tag : StructTag) : Tag * bool * option error :=
  match Lookup tag "env" with
  | None => (zeroTag, false, None)
  | Some envTag =>
      if Strings.isEmpty envTag then (zeroTag, false, Some errTagEmpty)
      else
        match Strings.Split envTag "," with
        | [] => (zeroTag, false, Some errTagNoName)     (* parts[0] of an empty slice: Split never returns one *)
        | name :: options =>
            if Strings.isEmpty name then (zeroTag, false, Some errTagNoName)
            else parseOptions options (mkTag name false EmptyString)
        end
  end.

(** The options the loop of [parseTag] accepts: [optional], and [default=]
    followed by a literal that is not empty. *)
Definition validOption (part : string) : bool :=
  (part =? "optional")%string
  || (Strings.HasPrefix part "default=" && (8 <? Strings.len part)).

(** The errors [parseTag] returns. *)
Definition malformed (err : error) : bool :=
  match err with
  | errTagEmpty | errTagNoName | errDefaultNoValue | errUnknownOption _ => true
  | _ => false
  end.

Section with_floats.
Context `{Floats}.

(** The loop of [parseSlice] over the elements of a slice of [int]:
    the integers parsed, or the error of the first element that fails. *)
Fixpoint parseInts (elements : list string) : list Z + error :=
  match elements with
  | [] => inl []
  | el :: elements' =>
      match Atoi el with
      | inr err => inr (errParseInt el err)
      | inl intValue =>
          match parseInts elements' with
          | inr err => inr err
          | inl result => inl (intValue :: result)
          end
      end
  end.

(** [parseSlice] parses a comma-separated string into a slice of the
    specified type. *)
Definition parseSlice (value : string) (elemType : type) : Value + error :=
  if Strings.isEmpty value then inl (MakeSlice0 elemType)
  else
    let elements := Strings.Split value "," in
    match elemType with
    | TString => inl (stringSlice elements)
    | TInt Int =>
        match parseInts elements with
        | inr err => inr err
        | inl result => inl (intSlice result)
        end
    | _ => inr (errUnsupportedElem elemType)
    end.

(** [setField] sets the appropriate value to the struct field: the field
    after the call and the error returned.  [canSet] is
    [field.CanSet()]. *)
Definition setField (canSet : bool) (field : Value) (value : string) : Value * option error :=
  if negb canSet then (field, Some errCannotSet)
  else
    match field with
    | VString _ => (VString value, None)
    | VInt k _ =>
        match ParseInt value 64 with
        | inr err => (field, Some (errParseInt value err))
        | inl intValue => (SetInt k intValue, None)
        end
    | VBool _ =>
        match ParseBool value with
        | inr err => (field, Some (errParseBool value err))
        | inl boolValue => (VBool boolValue, None)
        end
    | VFloat k _ =>
        match ParseFloat value 64 with
        | inr err => (field, Some (errParseFloat value err))
        | inl floatValue => (SetFloat k floatValue, None)
        end
    | VSlice elem _ =>
        match parseSlice value elem with
        | inr err => (field, Some err)
        | inl sliceValue => (sliceValue, None)
        end
    | _ => (field, Some (errUnsupportedField (TypeOf field)))
    end.

Section fields.
Variable environ : Environ.
Variable parseStruct : Value -> Value * option error.

(** One iteration of the loop of [parseStruct], on the field [field]
    of value [fieldValue]: the value of the field after the iteration,
    and [Some err] when the iteration returns [err] from
    [parseStruct], [None] when the loop goes on.  Every value reached
    from [Parse] is addressable and every field that gets here is
    exported, so [fieldValue.CanSet()] is true. *)
Definition iteration (field : StructField) (fieldValue : Value) : Value * option error :=
  if negb (IsExported field) then (fieldValue, None)
  else
    match fieldValue with
    | VStruct _ => parseStruct fieldValue
    | VPtr (VStruct _ as target) =>
        let '(target', err) := parseStruct target in (VPtr target', err)
    | _ =>
        match parseTag (Reflect.Tag field) with
        | (_, _, Some err) => (fieldValue, Some (errInvalidTag (Name field) err))
        | (_, false, None) => (fieldValue, None)
        | (tag, true, None) =>
            let set (value : string) :=
              match setField true fieldValue value with
              | (fieldValue', Some err) => (fieldValue', Some (errSetField (Name field) err))
              | (fieldValue', None) => (fieldValue', None)
              end in
            match LookupEnv environ (Env tag) with
            | Some value => set value
            | None =>
                if Optional tag then (fieldValue, None)
                else if negb (Strings.isEmpty (Default tag)) then set (Default tag)
                else (fieldValue, Some (errRequiredNotSet (Env tag)))
            end
        end
    end.

End fields.

(** [parseStruct] handles parsing of struct fields: the value after the
    call and the error returned. *)
Fixpoint parseStruct (environ : Environ) (rv : Value) : Value * option error :=
  match rv with
  | VStruct fields =>
      let '(fields', err) := fieldLoop (iteration environ (parseStruct environ)) fields in
      (VStruct fields', err)
  | _ => (rv, Some errNotStruct)
  end.

(** [Parse] populates a struct with values from environment variables
    based on struct tags: the argument after the call and the error
    returned. *)
Definition Parse (environ : Environ) (v : any) : any * option error :=
  match v with
  | Some (VPtr target) =>
      let '(target', err) := parseStruct environ target in
      (Some (VPtr target'), err)
  | _ => (v, Some errNonNilPointer)
  end.

(** A field [parseStruct] descends into instead of reading its tag: a
    struct, or a non-nil pointer to a struct. *)
Definition nested (fieldValue : Value) : bool :=
  match fieldValue with
  | VStruct _ | VPtr (VStruct _) => true
  | _ => false
  end.

(** The string the loop of [parseStruct] hands to [setField] for a tag:
    the value of the variable when it is set; the default when the
    variable is unset, the tag not optional and the default not empty.
    [None] when the loop skips the field or returns an error. *)
Definition resolve (environ : Environ) (tag : Tag) : option string :=
  match LookupEnv environ (Env tag) with
  | Some value => Some value
  | None =>
      if Optional tag then None
      else if negb (Strings.isEmpty (Default tag)) then Some (Default tag)
      else None
  end.

(** The fields that take the [default] branch of [setField]: a kind
    outside string, int*, bool, float* and slice, on a field the loop
    does not descend into. *)
Definition unsupported (fieldValue : Value) : bool :=
  match fieldValue with
  | VOpaque _ | VNilPtr _ => true
  | VPtr target => negb (nested fieldValue)
  | _ => false
  end.

End with_floats.

End Strict.

(** ** The loose revision (src/env.go) *)

Module Loose.
Import Strconv Reflect Os.

Record Tag := mkTag { Env : string; Optional : bool; Default : string }.

(** [Tag{}] *)
Definition zeroTag : Tag := mkTag EmptyString false EmptyString.

(** The errors of the package, one constructor per [fmt.Errorf] of the
    source. *)
Inductive error :=
| errParsingField (field : string) (err : error)       (* error parsing field '%s' : %w *)
| errMissingRequired (env : string)                    (* missing required env : %s *)
| errParsingSliceField (field : string) (err : error)  (* error parsing slice field '%s' : %w *)
| errParsingIntField (field : string) (err : NumError) (* error parsing int field '%s' : %w *)
| errParsingIntSlice (err : NumError)                  (* error parsing int slice : %w *)
| errUnsupportedSlice (elemType : type)                (* unsupported slice type '%s' *)
| errEmptyTag                                          (* empty tag '%s' *)
| errInvalidDefault (value : string).                  (* invalid use of default in tag ... found '%s' *)

(** The loop of [parseTag] over [parts[1:]]; [opt] and [def] are the
    variables of the same names. *)
Fixpoint parseOptions (parts : list string) (opt : bool) (def : string)
  : (bool * string) + error :=
  match parts with
  | [] => inl (opt, def)
  | value :: parts' =>
      if (value =? "optional")%string then parseOptions parts' true def
      else if Strings.HasPrefix value "default" then
        match Strings.SplitN value "=" 2 with
        | [_; literal] => parseOptions parts' opt literal
        | _ => inr (errInvalidDefault value)
        end
      else parseOptions parts' opt def
  end.

Definition parseTag (tag : StructTag) : Tag * bool * option error :=
  match Lookup tag "env" with
  | None => (zeroTag, false, None)
  | Some raw =>
      match Strings.Split raw "," with
      | [] => (zeroTag, false, Some errEmptyTag)
      | name :: options =>
          if Strings.isEmpty name then (zeroTag, false, Some errEmptyTag)
          else
            match parseOptions options false EmptyString with
            | inr err => (zeroTag, false, Some err)
            | inl (opt, def) => (mkTag name opt def, true, None)
            end
      end
  end.

(** The outcome of a call that may panic: the argument after the call and
    the error returned, or a run-time panic (raised before any field is
    written). *)
Inductive outcome `{Floats} :=
| Returns (obj : any) (err : option error)
| Panics.

Section with_floats.
Context `{Floats}.

(** The loop of [parseSlice] over the elements of a slice of [int]. *)
Fixpoint parseInts (values : list string) : list Z + error :=
  match values with
  | [] => inl []
  | v :: values' =>
      match Atoi v with
      | inr err => inr (errParsingIntSlice err)
      | inl n =>
          match parseInts values' with
          | inr err => inr err
          | inl res => inl (n :: res)
          end
      end
  end.

Definition parseSlice (value : string) (elemType : type) : Value + error :=
  match elemType with
  | TString => inl (stringSlice (Strings.Split value ","))
  | TInt Int =>
      match parseInts (Strings.Split value ",") with
      | inr err => inr err
      | inl res => inl (intSlice res)
      end
  | _ => inr (errUnsupportedSlice elemType)
  end.

(** [for t.Kind() == reflect.Ptr { t = t.Elem() }] *)
Fixpoint elemType (t : type) : type :=
  match t with
  | TPtr elem => elemType elem
  | _ => t
  end.

(** [for v.Kind() == reflect.Ptr { v = v.Elem() }]: [None] is the zero
    [reflect.Value], the [Elem] of a nil pointer. *)
Fixpoint elemValue (v : Value) : option Value :=
  match v with
  | VPtr target => elemValue target
  | VNilPtr _ => None
  | _ => Some v
  end.

(** The object [obj] once the value its pointers lead to has become
    [v']: in the source the loop writes through those pointers. *)
Fixpoint store (obj : Value) (v' : Value) : Value :=
  match obj with
  | VPtr target => VPtr (store target v')
  | VNilPtr _ => obj
  | _ => v'
  end.

(** A value is addressable when it was reached through a pointer. *)
Definition addressable (obj : Value) : bool :=
  match obj with
  | VPtr _ => true
  | _ => false
  end.

Section fields.
Variable environ : Environ.
(** [vField.CanSet()] for an exported field *)
Variable canSet : bool.

(** One iteration of the loop of [Parse] on the field [tField] of
    value [vField]: the value of the field after the iteration, and
    [Some err] when the iteration returns [err] from [Parse]. *)
Definition iteration (tField : StructField) (vField : Value) : Value * option error :=
  if negb (canSet && IsExported tField) then (vField, None)
  else
    match parseTag (Reflect.Tag tField) with
    | (_, _, Some err) => (vField, Some (errParsingField (Name tField) err))
    | (_, false, None) => (vField, None)
    | (tag, true, None) =>
        let value := Getenv environ (Env tag) in
        let value := if Strings.isEmpty value then Default tag else value in
        if Strings.isEmpty value && negb (Optional tag) then
          (vField, Some (errMissingRequired (Env tag)))
        else
          match vField with
          | VSlice elem _ =>
              match parseSlice value elem with
              | inr err => (vField, Some (errParsingSliceField (Name tField) err))
              | inl values => (values, None)
              end
          | VString _ => (VString value, None)
          | VInt Int _ =>
              match ParseInt value 64 with
              | inr err => (vField, Some (errParsingIntField (Name tField) err))
              | inl parsed => (SetInt Int parsed, None)
              end
          | _ => (vField, None)
          end
    end.

End fields.

(** The string the loop of [Parse] converts for a tag: the value of the
    variable, or the default when that value is empty. *)
Definition resolve (environ : Environ) (tag : Tag) : string :=
  let value := Getenv environ (Env tag) in
  if Strings.isEmpty value then Default tag else value.

Definition Parse (environ : Environ) (obj : any) : outcome :=
  match obj with
  | None => Panics                       (* [t.Kind()] on the nil [reflect.Type] *)
  | Some o =>
      match elemType (TypeOf o) with
      | TStruct tFields =>
          match elemValue o with
          | Some (VStruct fields) =>
              let '(fields', err) := fieldLoop (iteration environ (addressable o)) fields in
              Returns (Some (store o (VStruct fields'))) err
          | Some _ => Panics             (* excluded: [v] has the struct type [t] *)
          | None =>                      (* [v.Field(0)] on the zero Value *)
              match tFields with
              | [] => Returns obj None
              | _ :: _ => Panics
              end
          end
      | _ => Panics                      (* [t.NumField()] on a type that is no struct *)
      end
  end.

End with_floats.

End Loose.

(** ** The options of a tag *)

Module Options.

(** [default=] followed by a literal *)
Definition isDefault (part : string) : bool := Strings.HasPrefix part "default=".

(** an option of the grammar [name[,optional][,default=value]] *)
Definition isOption (part : string) : bool :=
  (part =? "optional")%string || isDefault part.

(** the number of [default=] options among [parts] *)
Definition defaults (parts : list string) : nat :=
  length (List.filter isDefault parts).

End Options.

(** ** Records and environments used to evaluate the binder *)

Module Examples.
Import Strconv Reflect Os.

(** Programs without floating-point fields: no [float64] value exists and
    [ParseFloat] is never reached. *)
Definition noFloats : Floats :=
  {| float64 := Empty_set;
     ParseFloat := fun s _ => inr (mkNumError "ParseFloat" s ErrSyntax);
     toFloat32 := fun x => x |}.
#[export] Existing Instance noFloats.

(** an exported field [name] with the tag [env:"tag"] *)
Definition field (name tag : string) : StructField :=
  mkStructField name "" [("env", tag)].

(** the record and the environment of the test "combination of types" of
    src/env_test.go *)
Definition config : list (StructField * Value) :=
  [ (field "AppName" "APP_NAME", VString "");
    (field "Port" "PORT", VInt Int 0);
    (field "Debug" "DEBUG", VString "");
    (field "AllowedHosts" "ALLOWED_HOSTS", VSlice TString None);
    (field "Optional" "OPTIONAL,optional", VString "");
    (field "DefaultVal" "DEFAULT_VAL,default=default", VString "") ].

Definition configEnv : Environ :=
  list_to_map [ ("APP_NAME", "test-app"); ("PORT", "8080"); ("DEBUG", "true");
                ("ALLOWED_HOSTS", "localhost,example.com") ].

Definition configBound : list (StructField * Value) :=
  [ (field "AppName" "APP_NAME", VString "test-app");
    (field "Port" "PORT", VInt Int 8080);
    (field "Debug" "DEBUG", VString "true");
    (field "AllowedHosts" "ALLOWED_HOSTS",
       VSlice TString (Some [VString "localhost"; VString "example.com"]));
    (field "Optional" "OPTIONAL,optional", VString "");
    (field "DefaultVal" "DEFAULT_VAL,default=default", VString "default") ].

(** the record of the test "env overrides default", holding [value]; the
    variable is set to the empty string in [emptyEnv] *)
Definition withDefault (value : string) : list (StructField * Value) :=
  [ (field "WithDefault" "WITH_DEFAULT,default=default-value", VString value) ].

Definition emptyEnv : Environ := list_to_map [ ("WITH_DEFAULT", "") ].

(** optional fields of several types *)
Definition optionals : list (StructField * Value) :=
  [ (field "Name" "NAME,optional", VString "");
    (field "Hosts" "HOSTS,optional", VSlice TString None);
    (field "Port" "PORT,optional", VInt Int 0);
    (field "Debug" "DEBUG,optional", VBool false);
    (field "Labels" "LABELS,optional", VOpaque Map) ].

(** a record with a boolean field holding [b]; the variable is set to
    [value] in [debugEnv value] *)
Definition debug (b : bool) : list (StructField * Value) :=
  [ (field "AppName" "APP_NAME", VString "");
    (field "Debug" "DEBUG", VBool b) ].

Definition debugEnv (value : string) : Environ :=
  list_to_map [ ("APP_NAME", "svc"); ("DEBUG", value) ].

(** a field of a map type, and a field of type [[]float64] *)
Definition labels (tag : string) : list (StructField * Value) :=
  [ (field "Labels" tag, VOpaque Map) ].

Definition ratios : list (StructField * Value) :=
  [ (field "Ratios" "RATIOS", VSlice (TFloat Float64) None) ].

Definition labelsEnv : Environ := list_to_map [ ("LABELS", "a=b"); ("RATIOS", "") ].

(** a field of a struct type without exported fields, as [time.Time] is *)
Definition started : list (StructField * Value) :=
  [ (field "Started" "STARTED",
       VStruct [ (mkStructField "wall" "time" [], VOpaque Uint64);
                 (mkStructField "ext" "time" [], VInt Int64 0);
                 (mkStructField "loc" "time" [], VNilPtr (TStruct [])) ]) ].

Definition startedEnv : Environ := list_to_map [ ("STARTED", "2024-01-01T00:00:00Z") ].

(** the record and the environment of the test "invalid int slice
    element" *)
Definition ports : list (StructField * Value) :=
  [ (field "Ports" "PORTS", VSlice (TInt Int) None) ].

Definition portsEnv : Environ := list_to_map [ ("PORTS", "8080,invalid,9000") ].

(** a field whose tag has the option [frobnicate] *)
Definition frobnicate : list (StructField * Value) :=
  [ (field "Name" "NAME,frobnicate", VString "") ].

Definition nameEnv : Environ := list_to_map [ ("NAME", "svc") ].

(** a field of type [[]string] whose variable is set to the empty string *)
Definition hosts : list (StructField * Value) :=
  [ (field "Hosts" "HOSTS", VSlice TString None) ].

Definition hostsEnv : Environ := list_to_map [ ("HOSTS", "") ].

End Examples.

(** ** Notions used by the further properties *)

Module Descent.
Import Strconv Reflect.

(** [P] holds of the struct the loop of [Strict.parseStruct] descends into
    from a field of value [fieldValue], if there is one. *)
Definition descends `{Floats} (P : list (StructField * Value) -> Prop)
    (fieldValue : Value) : Prop :=
  match fieldValue with
  | VStruct inner | VPtr (VStruct inner) => P inner
  | _ => True
  end.

End Descent.

(** ** The kinds the loose revision converts *)

Module Kinds.
Import Strconv Reflect.

(** The fields the [switch] of [Loose.Parse] has a case for: kinds
    [reflect.Slice], [reflect.String] and [reflect.Int]. *)
Definition converted `{Floats} (vField : Value) : bool :=
  match vField with
  | VSlice _ _ | VString _ | VInt Int _ => true
  | _ => false
  end.

End Kinds.

(** ** The first revision (src/unnamed/part_000, first file) *)

Module Early.
Import Strconv Reflect Os.

Record Tag := mkTag { Env : string; Optional : bool }.

(** [Tag{}] *)
Definition zeroTag : Tag := mkTag EmptyString false.

(** The errors of the package, one constructor per [fmt.Errorf] of the
    source. *)
Inductive error :=
| errParsingField (field : string) (err : error)   (* error parsing field '%s' : %w *)
| errMissingRequired (env : string)                (* missing required env : %s *)
| errEmptyTag.                                     (* empty tag '%s' *)

(** The loop of [parseTag] over [parts[1:]]; [optional] is the variable of
    the same name. *)
Fixpoint parseOptions (parts : list string) (optional : bool) : bool :=
  match parts with
  | [] => optional
  | value :: parts' =>
      if (value =? "optional")%string then parseOptions parts' true
      else parseOptions parts' optional
  end.

Definition parseTag (tag : StructTag) : Tag * bool * option error :=
  match Lookup tag "env" with
  | None => (zeroTag, false, None)
  | Some raw =>
      match Strings.Split raw "," with
      | [] => (zeroTag, false, Some errEmptyTag)
      | name :: options => (mkTag name (parseOptions options false), true, None)
      end
  end.

(** The [int64] that [strconv.ParseInt(s, 10, 64)] returns, its error
    dropped: 0 beside a syntax error, the nearest [int64] beside a range
    error. *)
Definition parsedInt (s : string) : Z :=
  match ParseInt s 64 with
  | inl parsed => parsed
  | inr numErr =>
      match Err_ numErr with
      | ErrRange =>
          match s with
          | String "-" _ => - 2 ^ 63
          | _ => 2 ^ 63 - 1
          end
      | _ => 0
      end
  end.

(** What ends the loop of [Parse]: a [return] of an error, or a panic. *)
Inductive stop :=
| Return (err : error)
| Panic.

(** The outcome of a call: the argument after the call and the error
    returned, or a run-time panic. *)
Inductive outcome `{Floats} :=
| Returns (obj : any) (err : option error)
| Panics.

Section with_floats.
Context `{Floats}.

Section fields.
Variable environ : Environ.
(** [vField.CanSet()] for an exported field *)
Variable canSet : bool.

(** One iteration of the loop of [Parse] on the field [tField] of value
    [vField]: the value of the field after the iteration, and what the
    iteration ends the loop with, if anything.  [vField.Set] of a
    [[]string] panics on a slice of another element type. *)
Definition iteration (tField : StructField) (vField : Value) : Value * option stop :=
  if negb (canSet && IsExported tField) then (vField, None)
  else
    match parseTag (Reflect.Tag tField) with
    | (_, _, Some err) => (vField, Some (Return (errParsingField (Name tField) err)))
    | (_, false, None) => (vField, None)
    | (tag, true, None) =>
        let value := Getenv environ (Env tag) in
        if negb (Optional tag) && Strings.isEmpty value then
          (vField, Some (Return (errMissingRequired (Env tag))))
        else
          match vField with
          | VSlice TString _ => (stringSlice (Strings.Split value ","), None)
          | VSlice _ _ => (vField, Some Panic)
          | VString _ => (VString value, None)
          | VInt Int _ => (SetInt Int (parsedInt value), None)
          | _ => (vField, None)
          end
    end.
End fields.

(** The preamble is that of src/env.go: [Loose.elemType], [Loose.elemValue],
    [Loose.store] and [Loose.addressable]. *)
Definition Parse (environ : Environ) (obj : any) : outcome :=
  match obj with
  | None => Panics                       (* [t.Kind()] on the nil [reflect.Type] *)
  | Some o =>
      match Loose.elemType (TypeOf o) with
      | TStruct tFields =>
          match Loose.elemValue o with
          | Some (VStruct fields) =>
              match fieldLoop (iteration environ (Loose.addressable o)) fields with
              | (fields', Some (Return err)) =>
                  Returns (Some (Loose.store o (VStruct fields'))) (Some err)
              | (_, Some Panic) => Panics
              | (fields', None) => Returns (Some (Loose.store o (VStruct fields'))) None
              end
          | Some _ => Panics             (* excluded: [v] has the struct type [t] *)
          | None =>                      (* [v.Field(0)] on the zero Value *)
              match tFields with
              | [] => Returns obj None
              | _ :: _ => Panics
              end
          end
      | _ => Panics                      (* [t.NumField()] on a type that is no struct *)
      end
  end.

End with_floats.

End Early.

(** ** More records and environments *)

Module Samples.
Import Strconv Reflect Os Examples.

(** a record with a field that is not exported *)
Definition withSecret : list (StructField * Value) :=
  [ (mkStructField "secret" "main" [("env", "SECRET")], VString "keep");
    (field "Name" "NAME", VString "") ].

Definition secretEnv : Environ := list_to_map [ ("SECRET", "leak"); ("NAME", "svc") ].

(** an exported field without tag, to hold a nested struct *)
Definition inner : StructField := mkStructField "Inner" "" [].

(** [config] as the first revision leaves it under [configEnv]: it knows no
    default, and stops at [DefaultVal] *)
Definition configEarly : list (StructField * Value) :=
  [ (field "AppName" "APP_NAME", VString "test-app");
    (field "Port" "PORT", VInt Int 8080);
    (field "Debug" "DEBUG", VString "true");
    (field "AllowedHosts" "ALLOWED_HOSTS",
       VSlice TString (Some [VString "localhost"; VString "example.com"]));
    (field "Optional" "OPTIONAL,optional", VString "");
    (field "DefaultVal" "DEFAULT_VAL,default=default", VString "") ].



End Samples.

(** ** The errors a call reports *)

Module Reports.
Import Strconv Reflect.

(** The errors of [Strict.setField] on a settable field: a text that does
    not parse, a type without conversion. *)
Definition conversion (err : Strict.error) : bool :=
  match err with
  | Strict.errParseInt _ _ | Strict.errParseBool _ _ | Strict.errParseFloat _ _
  | Strict.errUnsupportedField _ | Strict.errUnsupportedElem _ => true
  | _ => false
  end.

(** The errors that name a field or a variable: a tag that does not parse,
    a variable that is not set, a field that cannot be converted. *)
Definition named (err : Strict.error) : bool :=
  match err with
  | Strict.errInvalidTag _ err' => Strict.malformed err'
  | Strict.errRequiredNotSet _ => true
  | Strict.errSetField _ err' => conversion err'
  | _ => false
  end.

(** The same for the loose revision. *)
Definition looseNamed (err : Loose.error) : bool :=
  match err with
  | Loose.errParsingField _ (Loose.errEmptyTag | Loose.errInvalidDefault _) => true
  | Loose.errMissingRequired _ => true
  | Loose.errParsingSliceField _ (Loose.errParsingIntSlice _ | Loose.errUnsupportedSlice _) => true
  | Loose.errParsingIntField _ _ => true
  | _ => false
  end.

End Reports.

(** * Verification *)

(** ** Facts about [strings] *)

Section StringsFacts.
Import Strings.

Lemma Split_not_nil s sep : Split s sep <> [].
Proof.
  destruct s as [|c s]; simpl; [discriminate|].
  destruct (Ascii.eqb c sep); [discriminate|].
  destruct (Split s sep); discriminate.
Qed.

Lemma Split_cons s sep : exists x xs, Split s sep = x :: xs.
Proof.
  destruct (Split s sep) as [|x xs] eqn:E; [|eauto].
  exfalso. exact (Split_not_nil _ _ E).
Qed.

Lemma Join_cons_cons x y ys sep :
  Join (x :: y :: ys) sep = String.append x (String sep (Join (y :: ys) sep)).
Proof. reflexivity. Qed.

(** Splitting loses nothing: joining the substrings with the separator
    gives the string back. *)
Lemma Join_Split s sep : Join (Split s sep) sep = s.
Proof.
  induction s as [|c s IH]; [reflexivity|].
  cbn [Split]. destruct (Split_cons s sep) as (x & xs & E).
  rewrite E in *. destruct (Ascii.eqb_spec c sep) as [->|Hne].
  - rewrite Join_cons_cons, IH. reflexivity.
  - destruct xs as [|y ys].
    + cbn [Join] in *. by rewrite IH.
    + rewrite Join_cons_cons in *. rewrite <- IH. reflexivity.
Qed.


Lemma Split_no_sep s sep : Forall (fun x => contains x sep = false) (Split s sep).
Proof.
  induction s as [|c s IH]; simpl.
  - by repeat constructor.
  - destruct (Ascii.eqb c sep) eqn:E.
    + by constructor.
    + destruct (Split_cons s sep) as (x & xs & Es). rewrite Es in *.
      inversion IH; subst. constructor; [|done]. simpl. by rewrite E.
Qed.

Lemma isEmpty_true s : isEmpty s = true <-> s = "".
Proof. by destruct s. Qed.

Lemma isEmpty_false s : isEmpty s = false <-> s <> "".
Proof. by destruct s. Qed.
End StringsFacts.

(** ** The loop over the fields of a struct *)

Section FieldLoop.
Import Strconv Reflect.
Context `{Floats} {Err : Type}.
Implicit Types (fields pre post : list (StructField * Value)).

Section loop.
Variable iter : StructField -> Value -> Value * option Err.
#[local] Abbreviation loop := (fieldLoop iter).

Lemma fieldLoop_cons field fieldValue rest :
  loop ((field, fieldValue) :: rest) =
    match iter field fieldValue with
    | (fieldValue', Some err) => ((field, fieldValue') :: rest, Some err)
    | (fieldValue', None) =>
        let '(rest', err) := loop rest in ((field, fieldValue') :: rest', err)
    end.
Proof. reflexivity. Qed.

(** the loop keeps the number of fields *)
Lemma fieldLoop_length fields : length (loop fields).1 = length fields.
Proof.
  induction fields as [|[f v] rest IH]; [done|].
  rewrite fieldLoop_cons. destruct (iter f v) as [v' [e|]]; [done|].
  destruct (loop rest) as [rest' e]. simpl in *. by rewrite IH.
Qed.

(** the loop over [pre ++ post] runs over [pre], and over [post] when
    [pre] raised no error *)
Lemma fieldLoop_app pre post :
  loop (pre ++ post) =
    match loop pre with
    | (pre', Some err) => (pre' ++ post, Some err)
    | (pre', None) => let '(post', err) := loop post in (pre' ++ post', err)
    end.
Proof.
  induction pre as [|[f v] pre IH]; simpl app.
  - change (loop []) with (@nil (StructField * Value), @None Err).
    by destruct (loop post).
  - rewrite !fieldLoop_cons. destruct (iter f v) as [v' [e|]]; [done|].
    rewrite IH. destruct (loop pre) as [pre' [e|]]; [done|].
    by destruct (loop post).
Qed.

(** after a loop without error, every field holds what its iteration
    left *)
Lemma fieldLoop_ok_lookup fields fields' i field fieldValue :
  loop fields = (fields', None) ->
  fields !! i = Some (field, fieldValue) ->
  exists fieldValue',
    iter field fieldValue = (fieldValue', None) /\
    fields' !! i = Some (field, fieldValue').
Proof.
  revert fields' i. induction fields as [|[f v] rest IH]; intros fields' i Hl Hi; [done|].
  rewrite fieldLoop_cons in Hl.
  destruct (iter f v) as [v' [e|]] eqn:Ei; [done|].
  destruct (loop rest) as [rest' e] eqn:Er. simplify_eq.
  destruct i as [|i]; simpl in *.
  - simplify_eq. eauto.
  - by apply IH.
Qed.

(** an iteration that returns an error ends the loop *)
Lemma fieldLoop_stop pre pre' post field fieldValue fieldValue' err :
  loop pre = (pre', None) ->
  iter field fieldValue = (fieldValue', Some err) ->
  loop (pre ++ (field, fieldValue) :: post) =
    (pre' ++ (field, fieldValue') :: post, Some err).
Proof.
  intros Hp Hi. rewrite fieldLoop_app, Hp, fieldLoop_cons, Hi. done.
Qed.

(** a field whose iteration does nothing can be left out of the record *)
Lemma fieldLoop_skip pre post field fieldValue :
  iter field fieldValue = (fieldValue, None) ->
  exists pre' post' err,
    length pre' = length pre /\
    loop (pre ++ (field, fieldValue) :: post) = (pre' ++ (field, fieldValue) :: post', err) /\
    loop (pre ++ post) = (pre' ++ post', err).
Proof.
  intros Hi. rewrite !fieldLoop_app, fieldLoop_cons, Hi.
  pose proof (fieldLoop_length pre) as Hlen.
  destruct (loop pre) as [pre' [e|]]; simpl in Hlen.
  - by exists pre', post, (Some e).
  - destruct (loop post) as [post' e]. by exists pre', post', e.
Qed.

(** the field at [i] is unchanged as long as its iteration leaves it
    unchanged *)
Lemma fieldLoop_lookup_unchanged fields i field fieldValue :
  fields !! i = Some (field, fieldValue) ->
  (iter field fieldValue).1 = fieldValue ->
  (loop fields).1 !! i = Some (field, fieldValue).
Proof.
  revert i. induction fields as [|[f v] rest IH]; intros i Hi Hit; [done|].
  rewrite fieldLoop_cons.
  destruct i as [|i]; simpl in Hi.
  - simplify_eq. destruct (iter field fieldValue) as [v' [e|]]; simpl in *; subst; [done|].
    by destruct (loop rest).
  - destruct (iter f v) as [v' [e|]]; [done|].
    specialize (IH i Hi Hit). by destruct (loop rest).
Qed.

(** the loop returns an error when an iteration does *)
Lemma fieldLoop_error fields i field fieldValue :
  fields !! i = Some (field, fieldValue) ->
  (iter field fieldValue).2 <> None ->
  (loop fields).2 <> None.
Proof.
  intros Hi Hit Hl. destruct (loop fields) as [fields' e] eqn:E. simpl in Hl. subst e.
  destruct (fieldLoop_ok_lookup _ _ _ _ _ E Hi) as (v' & Hv & _).
  by rewrite Hv in Hit.
Qed.
End loop.
End FieldLoop.

(** ** One iteration of the strict loop *)

Section StrictIteration.
Import Strconv Reflect Os Strict.
Context `{Floats}.
Implicit Types (environ : Environ) (fields pre post : list (StructField * Value)).

Lemma parseStruct_struct environ fields :
  parseStruct environ (VStruct fields) =
    let '(fields', err) := fieldLoop (iteration environ (parseStruct environ)) fields in
    (VStruct fields', err).
Proof. reflexivity. Qed.

Lemma Parse_record environ fields :
  Parse environ (record fields) =
    let '(fields', err) := fieldLoop (iteration environ (parseStruct environ)) fields in
    (record fields', err).
Proof.
  unfold Parse, record. rewrite parseStruct_struct.
  by destruct (fieldLoop _ _).
Qed.

(** a field that is not exported is skipped *)
Lemma iteration_unexported environ ps field fieldValue :
  IsExported field = false ->
  iteration environ ps field fieldValue = (fieldValue, None).
Proof. intros Hx. unfold iteration. by rewrite Hx. Qed.

(** an exported field the loop does not descend into: its tag is parsed,
    its variable looked up *)
Lemma iteration_leaf environ ps field fieldValue :
  IsExported field = true ->
  nested fieldValue = false ->
  iteration environ ps field fieldValue =
    match parseTag (Reflect.Tag field) with
    | (_, _, Some err) => (fieldValue, Some (errInvalidTag (Name field) err))
    | (_, false, None) => (fieldValue, None)
    | (tag, true, None) =>
        match LookupEnv environ (Env tag) with
        | Some value =>
            match setField true fieldValue value with
            | (fieldValue', Some err) => (fieldValue', Some (errSetField (Name field) err))
            | (fieldValue', None) => (fieldValue', None)
            end
        | None =>
            if Optional tag then (fieldValue, None)
            else if negb (Strings.isEmpty (Default tag)) then
              match setField true fieldValue (Default tag) with
              | (fieldValue', Some err) => (fieldValue', Some (errSetField (Name field) err))
              | (fieldValue', None) => (fieldValue', None)
              end
            else (fieldValue, Some (errRequiredNotSet (Env tag)))
        end
    end.
Proof.
  intros Hx Hn. unfold iteration. rewrite Hx. simpl.
  destruct fieldValue as [| | | | | |target| |]; try done.
  by destruct target.
Qed.

(** the same, once the tag is known to resolve to a string *)
Lemma iteration_resolved environ ps field fieldValue tag value :
  IsExported field = true ->
  nested fieldValue = false ->
  parseTag (Reflect.Tag field) = (tag, true, None) ->
  resolve environ tag = Some value ->
  iteration environ ps field fieldValue =
    match setField true fieldValue value with
    | (fieldValue', Some err) => (fieldValue', Some (errSetField (Name field) err))
    | (fieldValue', None) => (fieldValue', None)
    end.
Proof.
  intros Hx Hn Ht Hr. rewrite iteration_leaf, Ht by done.
  unfold resolve in Hr. destruct (LookupEnv environ (Env tag)) as [v|].
  - by simplify_eq.
  - destruct (Optional tag); [done|].
    destruct (negb (Strings.isEmpty (Default tag))); by simplify_eq.
Qed.

(** [setField] writes nothing when it returns an error *)
Lemma setField_error_unchanged canSet fieldValue value fieldValue' err :
  setField canSet fieldValue value = (fieldValue', Some err) ->
  fieldValue' = fieldValue.
Proof.
  unfold setField. destruct canSet; simpl; [|by intros; simplify_eq].
  destruct fieldValue; intros Hs; repeat case_match; by simplify_eq.
Qed.

(** the record a successful [Parse] was given, in terms of the loop *)
Lemma Parse_record_inv environ fields out err :
  Parse environ (record fields) = (out, err) ->
  exists fields',
    out = record fields' /\
    fieldLoop (iteration environ (parseStruct environ)) fields = (fields', err).
Proof.
  rewrite Parse_record. destruct (fieldLoop _ _) as [fields' e].
  intros; simplify_eq. eauto.
Qed.

Lemma record_inj fields fields' : record fields = record fields' -> fields = fields'.
Proof. unfold record. by intros; simplify_eq. Qed.

(** the fields before [i], the field at [i], the fields after *)
Lemma fields_split fields i (x : StructField * Value) :
  fields !! i = Some x -> fields = take i fields ++ x :: drop (S i) fields.
Proof. intros Hi. by rewrite <- (take_drop_middle _ _ _ Hi) at 1. Qed.

(** An iteration that returns an error makes [Parse] return an error; it
    is that error, and the later fields are not visited, when the fields
    before bind without error. *)
Lemma Parse_iteration_error environ fields i field fieldValue fieldValue' err :
  fields !! i = Some (field, fieldValue) ->
  iteration environ (parseStruct environ) field fieldValue = (fieldValue', Some err) ->
  (Parse environ (record fields)).2 <> None /\
  forall pre',
    Parse environ (record (take i fields)) = (record pre', None) ->
    Parse environ (record fields) =
      (record (pre' ++ (field, fieldValue') :: drop (S i) fields), Some err).
Proof.
  intros Hi Hit. split.
  - rewrite Parse_record.
    pose proof (fieldLoop_error (iteration environ (parseStruct environ)) fields i field fieldValue Hi) as He.
    rewrite Hit in He. specialize (He ltac:(done)).
    by destruct (fieldLoop _ _).
  - intros pre' Hp. apply Parse_record_inv in Hp as (pre'' & Hp1 & Hp2).
    apply record_inj in Hp1 as <-.
    rewrite (fields_split fields i _ Hi) at 1.
    rewrite Parse_record.
    by rewrite (fieldLoop_stop _ _ _ _ _ _ _ _ Hp2 Hit).
Qed.
End StrictIteration.

(** ** The strict revision against the specification *)

Section StrictClaims.
Import Strconv Reflect Os Strict.
Context `{Floats}.
Implicit Types (environ : Environ) (fields pre post : list (StructField * Value)).

(** C1.  A variable that is set wins over the default.  Take a field whose
    tag parses (with any default literal and with or without [optional])
    in a record that [Parse] binds without error.  When the variable is
    set to [Y], the empty string included, the field holds the conversion
    of [Y] by [setField].  Only when the variable is unset does the loop
    fall back: an optional field keeps its value, any other field holds
    the conversion of the default, which is then not empty. *)
Theorem Strict_environment_wins environ fields fields' i field fieldValue tag :
  fields !! i = Some (field, fieldValue) ->
  IsExported field = true ->
  nested fieldValue = false ->
  parseTag (Reflect.Tag field) = (tag, true, None) ->
  Parse environ (record fields) = (record fields', None) ->
  match LookupEnv environ (Env tag) with
  | Some Y =>
      exists converted,
        setField true fieldValue Y = (converted, None) /\
        fields' !! i = Some (field, converted)
  | None =>
      if Optional tag then fields' !! i = Some (field, fieldValue)
      else
        Default tag <> "" /\
        exists converted,
          setField true fieldValue (Default tag) = (converted, None) /\
          fields' !! i = Some (field, converted)
  end.
Proof.
  intros Hi Hx Hn Ht HP.
  apply Parse_record_inv in HP as (fs & Hfs & Hloop).
  apply record_inj in Hfs as <-.
  destruct (fieldLoop_ok_lookup _ _ _ _ _ _ Hloop Hi) as (v' & Hit & Hi').
  rewrite iteration_leaf, Ht in Hit by done.
  destruct (LookupEnv environ (Env tag)) as [Y|].
  - destruct (setField true fieldValue Y) as [c [e|]]; simplify_eq. eauto.
  - destruct (Optional tag); [by simplify_eq|].
    destruct (Strings.isEmpty (Default tag)) eqn:Hd; simpl in Hit; [done|].
    apply isEmpty_false in Hd. split; [done|].
    destruct (setField true fieldValue (Default tag)) as [c [e|]]; simplify_eq. eauto.
Qed.

(** C2.  An input that is not a non-nil pointer to a struct (the nil
    interface, a value that is no pointer, a nil pointer, a pointer to
    something else) makes [Parse] return an error, "input must be a
    non-nil pointer" or "value must be a struct", and leaves the input as
    it was. *)
Theorem Strict_invalid_input environ (v : any) :
  (forall fields, v <> record fields) ->
  exists err,
    Parse environ v = (v, Some err) /\
    (err = errNonNilPointer \/ err = errNotStruct).
Proof.
  intros Hv. unfold Parse.
  destruct v as [[| | | | | |target| |]|]; try by eauto.
  destruct target; try by (simpl; eauto).
  by destruct (Hv fields).
Qed.

(** C3.  An optional field without default whose variable is not set is
    inert, whatever its type (any field the loop does not descend into):
    the record binds exactly as the record without that field does, with
    the same error outcome, and the field keeps the value it had, its zero
    value included. *)
Theorem Strict_optional_unset environ fields i field fieldValue tag :
  fields !! i = Some (field, fieldValue) ->
  nested fieldValue = false ->
  parseTag (Reflect.Tag field) = (tag, true, None) ->
  Optional tag = true ->
  Default tag = "" ->
  LookupEnv environ (Env tag) = None ->
  exists fields' err,
    Parse environ (record fields) = (record fields', err) /\
    fields' !! i = Some (field, fieldValue) /\
    Parse environ (record (delete i fields)) = (record (delete i fields'), err).
Proof.
  intros Hi Hn Ht Ho Hd Hl.
  assert (iteration environ (parseStruct environ) field fieldValue = (fieldValue, None)) as Hit.
  { destruct (IsExported field) eqn:Hx.
    - rewrite iteration_leaf, Ht, Hl, Ho by done. done.
    - by apply iteration_unexported. }
  destruct (fieldLoop_skip (iteration environ (parseStruct environ)) (take i fields) (drop (S i) fields) _ _ Hit)
    as (pre' & post' & err & Hlen & H1 & H2).
  rewrite <- (fields_split _ _ _ Hi) in H1.
  assert (i < length fields)%nat as Hlt by (by eapply lookup_lt_Some).
  assert (length pre' = i) as Hpre by (rewrite Hlen, length_take; lia).
  exists (pre' ++ (field, fieldValue) :: post'), err. split_and!.
  - by rewrite Parse_record, H1.
  - rewrite lookup_app_r by lia. by rewrite Hpre, Nat.sub_diag.
  - rewrite Parse_record.
    replace (delete i fields) with (take i fields ++ drop (S i) fields)
      by (by rewrite delete_take_drop).
    rewrite H2. f_equal. f_equal.
    rewrite delete_take_drop.
    rewrite take_app_length' by done.
    by rewrite cons_middle, app_assoc, drop_app_length' by (rewrite length_app; simpl; lia).
Qed.


(** C4.  A boolean field whose tag resolves to the string [Y] is assigned
    [strconv.ParseBool(Y)]: when [Parse] binds the record the field holds
    the parsed boolean, so it is never left unassigned; when [Y] is no
    boolean literal [Parse] returns an error, and that error is "failed
    to set field: cannot parse Y as bool" when the fields before bind.
    The literals [true], [false], [1] and [0] are recognised. *)
Theorem Strict_bool_field environ fields i field b tag Y :
  fields !! i = Some (field, VBool b) ->
  IsExported field = true ->
  parseTag (Reflect.Tag field) = (tag, true, None) ->
  resolve environ tag = Some Y ->
  (forall fields',
     Parse environ (record fields) = (record fields', None) ->
     exists parsed,
       ParseBool Y = inl parsed /\ fields' !! i = Some (field, VBool parsed)) /\
  (forall numErr,
     ParseBool Y = inr numErr ->
     (Parse environ (record fields)).2 <> None /\
     forall pre',
       Parse environ (record (take i fields)) = (record pre', None) ->
       Parse environ (record fields) =
         (record (pre' ++ (field, VBool b) :: drop (S i) fields),
          Some (errSetField (Name field) (errParseBool Y numErr)))) /\
  ParseBool "true" = inl true /\ ParseBool "false" = inl false /\
  ParseBool "1" = inl true /\ ParseBool "0" = inl false.
Proof.
  intros Hi Hx Ht Hr.
  pose proof (iteration_resolved environ (parseStruct environ) field (VBool b) tag Y
                Hx eq_refl Ht Hr) as Hit.
  change (setField true (VBool b) Y) with
    (match ParseBool Y with
     | inr e => (VBool b, Some (errParseBool Y e))
     | inl boolValue => (VBool boolValue, None)
     end) in Hit.
  split_and!; try reflexivity.
  - intros fields' HP.
    apply Parse_record_inv in HP as (fs & Hfs & Hloop).
    apply record_inj in Hfs as <-.
    destruct (fieldLoop_ok_lookup _ _ _ _ _ _ Hloop Hi) as (v' & Hit' & Hi').
    rewrite Hit in Hit'. destruct (ParseBool Y) as [parsed|e]; simplify_eq. eauto.
  - intros numErr Hb. rewrite Hb in Hit.
    by apply (Parse_iteration_error environ fields i field (VBool b)).
Qed.

(** C5, amended.  Let the tag of an exported field resolve to a string
    (its variable is set, or it is unset with a default and without
    [optional]).  When the field is of a kind [setField] has no case for
    (map, func, interface, chan, array, uint, complex, a nil pointer, a
    pointer to something that is no struct), [Parse] returns an error and
    leaves the field alone; the error is "failed to set field: unsupported
    field type" when the fields before bind.  The same holds, with
    "unsupported slice element type", for a slice whose elements are
    neither [string] nor [int] when the resolved string is not empty. *)
Theorem Strict_unsupported_type environ fields i field fieldValue tag value err :
  fields !! i = Some (field, fieldValue) ->
  IsExported field = true ->
  parseTag (Reflect.Tag field) = (tag, true, None) ->
  resolve environ tag = Some value ->
  (unsupported fieldValue = true /\ err = errUnsupportedField (TypeOf fieldValue)) \/
  (exists elem xs,
      fieldValue = VSlice elem xs /\ elem <> TString /\ elem <> TInt Int /\
      value <> "" /\ err = errUnsupportedElem elem) ->
  (Parse environ (record fields)).2 <> None /\
  forall pre',
    Parse environ (record (take i fields)) = (record pre', None) ->
    Parse environ (record fields) =
      (record (pre' ++ (field, fieldValue) :: drop (S i) fields),
       Some (errSetField (Name field) err)).
Proof.
  intros Hi Hx Ht Hr Hcase.
  assert (nested fieldValue = false) as Hn.
  { destruct Hcase as [[Hu _]|(elem & xs & -> & _)]; [|done].
    destruct fieldValue as [| | | | | |target| |]; try done.
    unfold unsupported in Hu. by apply negb_true_iff in Hu. }
  pose proof (iteration_resolved environ (parseStruct environ) field fieldValue tag value
                Hx Hn Ht Hr) as Hit.
  assert (setField true fieldValue value = (fieldValue, Some err)) as Hs.
  { destruct Hcase as [[Hu ->]|(elem & xs & -> & Hs1 & Hs2 & Hv & ->)].
    - by destruct fieldValue.
    - unfold setField, parseSlice. simpl.
      apply isEmpty_false in Hv. rewrite Hv.
      destruct elem as [|[]| | | | | |]; done. }
  rewrite Hs in Hit.
  by apply (Parse_iteration_error environ fields i field fieldValue).
Qed.

(** C7.  A field of type [[]string] is assigned the substrings of the
    resolved string between its commas, in order and verbatim (joining
    them with commas gives the string back, and none holds a comma); the
    empty string gives a slice of length zero.  ["a,b,c"] gives
    [["a"; "b"; "c"]]. *)
Theorem Strict_string_slice (old : option (list Value)) (value : string) :
  setField true (VSlice TString old) value =
    (stringSlice (if Strings.isEmpty value then [] else Strings.Split value ","), None) /\
  parseSlice value TString =
    inl (stringSlice (if Strings.isEmpty value then [] else Strings.Split value ",")) /\
  Strings.Join (Strings.Split value ",") "," = value /\
  Forall (fun element => Strings.contains element "," = false) (Strings.Split value ",") /\
  parseSlice "a,b,c" TString = inl (stringSlice ["a"; "b"; "c"]) /\
  parseSlice "" TString = inl (stringSlice []).
Proof.
  split_and!; try reflexivity.
  - unfold setField, parseSlice. simpl. by destruct (Strings.isEmpty value).
  - unfold parseSlice. by destruct (Strings.isEmpty value).
  - apply Join_Split.
  - apply Split_no_sep.
Qed.
End StrictClaims.

Section StrictTagClaims.
Import Strconv Reflect Os Strict.

(** an option that is not valid stops the loop of [parseTag] with an
    error *)
Lemma parseOptions_invalid options part result :
  part ∈ options ->
  validOption part = false ->
  exists err, parseOptions options result = (zeroTag, false, Some err) /\ malformed err = true.
Proof.
  intros Hin Hv. revert result.
  induction options as [|p options IH]; intros result; [by apply elem_of_nil in Hin|].
  apply elem_of_cons in Hin as [<-|Hin].
  - unfold validOption in Hv. apply orb_false_iff in Hv as [Hv1 Hv2].
    cbn [parseOptions]. rewrite Hv1.
    destruct (part =? "default")%string; [by eauto|].
    destruct (Strings.HasPrefix part "default=") eqn:Hp; [|by eauto].
    rewrite ?Hp in Hv2. cbn [andb] in Hv2. apply Z.ltb_ge in Hv2. apply Z.leb_le in Hv2. rewrite Hv2. by eauto.
  - cbn [parseOptions]. destruct (p =? "optional")%string; [by apply IH|].
    destruct (p =? "default")%string; [by eauto|].
    destruct (Strings.HasPrefix p "default="); [|by eauto].
    destruct (Strings.len p <=? 8); [by eauto|by apply IH].
Qed.

(** valid options before an unknown one do not hide it *)
Lemma parseOptions_unknown before part after result :
  Forall (fun p => validOption p = true) before ->
  (part =? "optional")%string = false ->
  (part =? "default")%string = false ->
  Strings.HasPrefix part "default=" = false ->
  parseOptions (before ++ part :: after) result = (zeroTag, false, Some (errUnknownOption part)).
Proof.
  intros Hb H1 H2 H3. revert result.
  induction Hb as [|p before Hp Hb IH]; intros result; cbn [parseOptions app].
  - by rewrite H1, H2, H3.
  - unfold validOption in Hp. destruct (p =? "optional")%string eqn:E1; [by apply IH|].
    cbn [orb] in Hp. apply andb_true_iff in Hp as [Hp1 Hp2].
    destruct (p =? "default")%string eqn:E2.
    { apply String.eqb_eq in E2. subst p. done. }
    rewrite Hp1. apply Z.ltb_lt in Hp2.
    destruct (Strings.len p <=? 8) eqn:E3; [apply Z.leb_le in E3; lia|].
    by apply IH.
Qed.

(** C6.  A tag with an option that is neither [optional] nor [default=]
    followed by a literal makes [parseTag] return an error of the tag
    ("env tag must have a name", "default tag must have a value",
    "unknown tag option"); it is "unknown tag option" with that option
    when the name is not empty, the options before it are valid and the
    option does not start with [default].  [parseTag] does not read the
    environment; whatever the environment, [Parse] returns an error for a
    record with such a tag on an exported field it does not descend
    into. *)
Theorem Strict_unknown_option `{Floats} (tag : StructTag) raw name options part :
  Lookup tag "env" = Some raw ->
  Strings.Split raw "," = name :: options ->
  part ∈ options ->
  validOption part = false ->
  (exists err, parseTag tag = (zeroTag, false, Some err) /\ malformed err = true) /\
  (forall before after,
     name <> "" ->
     options = before ++ part :: after ->
     Forall (fun p => validOption p = true) before ->
     (part =? "default")%string = false ->
     Strings.HasPrefix part "default=" = false ->
     parseTag tag = (zeroTag, false, Some (errUnknownOption part))) /\
  (forall (environ : Environ) fields i field fieldValue,
     fields !! i = Some (field, fieldValue) ->
     Reflect.Tag field = tag ->
     IsExported field = true ->
     nested fieldValue = false ->
     (Parse environ (record fields)).2 <> None).
Proof.
  intros Hl Hs Hin Hv.
  assert (raw <> "") as Hraw.
  { intros ->. simpl in Hs. simplify_eq. by apply elem_of_nil in Hin. }
  assert (exists err, parseTag tag = (zeroTag, false, Some err) /\ malformed err = true) as Herr.
  { unfold parseTag. rewrite Hl. apply isEmpty_false in Hraw. rewrite Hraw, Hs.
    destruct (Strings.isEmpty name); [by eauto|].
    by apply parseOptions_invalid with (part := part). }
  split_and!; [done| |].
  - intros before after Hname -> Hb H2 H3.
    unfold parseTag. rewrite Hl. apply isEmpty_false in Hraw. rewrite Hraw, Hs.
    apply isEmpty_false in Hname. rewrite Hname.
    apply parseOptions_unknown; try done.
    unfold validOption in Hv. by apply orb_false_iff in Hv as [? _].
  - intros environ fields i field fieldValue Hi <- Hx Hn.
    destruct Herr as (err & Hp & _).
    eapply (Parse_iteration_error environ fields i field fieldValue fieldValue); [done|].
    by rewrite iteration_leaf, Hp.
Qed.
End StrictTagClaims.

(** ** The order of the options of a tag *)

Section OptionOrder.
Import Strings Reflect Options.

Lemma HasPrefix_append s prefix :
  HasPrefix s prefix = true -> s = prefix +:+ sliceFrom (String.length prefix) s.
Proof.
  revert s. induction prefix as [|p prefix IH]; intros s Hp; [done|].
  destruct s as [|c s]; [done|]. simpl in Hp.
  apply andb_true_iff in Hp as [Hc Hp]. apply Ascii.eqb_eq in Hc as ->.
  change (String p s = String p (prefix +:+ sliceFrom (String.length prefix) s)).
  f_equal. by apply IH.
Qed.

(** an option is [optional] or [default=] followed by a literal *)
Lemma isOption_cases part :
  isOption part = true ->
  part = "optional" \/ exists literal, part = "default=" +:+ literal.
Proof.
  unfold isOption, isDefault. intros Hp. apply orb_true_iff in Hp as [Hp|Hp].
  - left. by apply String.eqb_eq.
  - right. eexists. by apply HasPrefix_append.
Qed.

Lemma defaults_cons part parts :
  defaults (part :: parts) = ((if isDefault part then 1 else 0) + defaults parts)%nat.
Proof. unfold defaults. simpl. by destruct (isDefault part). Qed.

Lemma defaults_Permutation parts1 parts2 :
  parts1 ≡ₚ parts2 -> defaults parts1 = defaults parts2.
Proof.
  induction 1 as [|x l l' _ IH|x y l|l l' l'' _ IH1 _ IH2].
  - done.
  - rewrite !defaults_cons. by rewrite IH.
  - rewrite !defaults_cons. lia.
  - by rewrite IH1.
Qed.

Lemma isDefault_default literal : isDefault ("default=" +:+ literal) = true.
Proof. reflexivity. Qed.

Lemma isDefault_optional : isDefault "optional" = false.
Proof. reflexivity. Qed.

Lemma len_default literal : len ("default=" +:+ literal) = 8 + len literal.
Proof.
  unfold len.
  change (String.length ("default=" +:+ literal)) with (8 + String.length literal)%nat.
  lia.
Qed.

Lemma len_le_0 literal : len literal <= 0 <-> literal = "".
Proof. unfold len. destruct literal; simpl; split; intros; try done; lia. Qed.

(** *** the strict revision *)

Lemma Strict_parseOptions_optional parts result :
  Strict.parseOptions ("optional" :: parts) result =
    Strict.parseOptions parts
      (Strict.mkTag (Strict.Env result) true (Strict.Default result)).
Proof. reflexivity. Qed.

Lemma Strict_parseOptions_default literal parts result :
  Strict.parseOptions (("default=" +:+ literal) :: parts) result =
    if isEmpty literal then (Strict.zeroTag, false, Some Strict.errDefaultNoValue)
    else Strict.parseOptions parts
           (Strict.mkTag (Strict.Env result) (Strict.Optional result) literal).
Proof.
  cbn [Strict.parseOptions].
  change (("default=" +:+ literal =? "optional")%string) with false.
  change (("default=" +:+ literal =? "default")%string) with (String "=" literal =? "")%string.
  change (HasPrefix ("default=" +:+ literal) "default=") with true.
  change (sliceFrom 8 ("default=" +:+ literal)) with literal.
  cbn [String.eqb]. cbv iota.
  rewrite len_default.
  destruct literal as [|c literal]; [done|].
  destruct (_ <=? 8) eqn:E; [|done].
  apply Z.leb_le in E. unfold len in E. simpl in E. lia.
Qed.

Lemma Strict_parseOptions_Permutation parts1 parts2 :
  parts1 ≡ₚ parts2 ->
  Forall (fun part => isOption part = true) parts1 ->
  (defaults parts1 <= 1)%nat ->
  forall result, Strict.parseOptions parts1 result = Strict.parseOptions parts2 result.
Proof.
  induction 1 as [|x l l' Hp IH|x y l|l l' l'' Hp1 IH1 Hp2 IH2]; intros Hall Hd result.
  - done.
  - apply Forall_cons in Hall as [Hx Hall]. rewrite defaults_cons in Hd.
    destruct (isOption_cases x Hx) as [->|[literal ->]].
    + rewrite !Strict_parseOptions_optional. apply IH; [done|lia].
    + rewrite !Strict_parseOptions_default. destruct (isEmpty literal); [done|].
      apply IH; [done|lia].
  - apply Forall_cons in Hall as [Hy Hall]. apply Forall_cons in Hall as [Hx Hall].
    rewrite !defaults_cons in Hd.
    destruct (isOption_cases x Hx) as [->|[lx ->]], (isOption_cases y Hy) as [->|[ly ->]].
    + done.
    + rewrite !Strict_parseOptions_optional, !Strict_parseOptions_default,
        !Strict_parseOptions_optional.
      by destruct (isEmpty ly).
    + rewrite !Strict_parseOptions_optional, !Strict_parseOptions_default,
        !Strict_parseOptions_optional.
      by destruct (isEmpty lx).
    + rewrite !isDefault_default in Hd. lia.
  - rewrite IH1 by done. apply IH2.
    + by rewrite <- Hp1.
    + by rewrite <- (defaults_Permutation _ _ Hp1).
Qed.

(** *** the loose revision *)

Lemma Loose_parseOptions_optional parts opt def :
  Loose.parseOptions ("optional" :: parts) opt def = Loose.parseOptions parts true def.
Proof. reflexivity. Qed.

Lemma Loose_parseOptions_default literal parts opt def :
  Loose.parseOptions (("default=" +:+ literal) :: parts) opt def =
    Loose.parseOptions parts opt literal.
Proof. reflexivity. Qed.

Lemma Loose_parseOptions_Permutation parts1 parts2 :
  parts1 ≡ₚ parts2 ->
  Forall (fun part => isOption part = true) parts1 ->
  (defaults parts1 <= 1)%nat ->
  forall opt def, Loose.parseOptions parts1 opt def = Loose.parseOptions parts2 opt def.
Proof.
  induction 1 as [|x l l' Hp IH|x y l|l l' l'' Hp1 IH1 Hp2 IH2]; intros Hall Hd opt def.
  - done.
  - apply Forall_cons in Hall as [Hx Hall]. rewrite defaults_cons in Hd.
    destruct (isOption_cases x Hx) as [->|[literal ->]].
    + rewrite !Loose_parseOptions_optional. apply IH; [done|lia].
    + rewrite !Loose_parseOptions_default. apply IH; [done|lia].
  - apply Forall_cons in Hall as [Hy Hall]. apply Forall_cons in Hall as [Hx Hall].
    rewrite !defaults_cons in Hd.
    destruct (isOption_cases x Hx) as [->|[lx ->]], (isOption_cases y Hy) as [->|[ly ->]].
    + done.
    + by rewrite !Loose_parseOptions_optional, !Loose_parseOptions_default,
        !Loose_parseOptions_optional.
    + by rewrite !Loose_parseOptions_optional, !Loose_parseOptions_default,
        !Loose_parseOptions_optional.
    + rewrite !isDefault_default in Hd. lia.
  - rewrite IH1 by done. apply IH2.
    + by rewrite <- Hp1.
    + by rewrite <- (defaults_Permutation _ _ Hp1).
Qed.

(** C10.  The order of the options is immaterial, in both revisions: two
    tags with the same name whose options are a permutation of each
    other, each option being [optional] or [default=] followed by a
    literal with at most one [default=] among them, parse to the same
    result (the same [Tag], or the same error when the literal of the
    default is empty in the strict revision). *)
Theorem option_order_immaterial (tag1 tag2 : StructTag) raw1 raw2 name options1 options2 :
  Lookup tag1 "env" = Some raw1 ->
  Lookup tag2 "env" = Some raw2 ->
  Split raw1 "," = name :: options1 ->
  Split raw2 "," = name :: options2 ->
  options1 ≡ₚ options2 ->
  Forall (fun part => isOption part = true) options1 ->
  (defaults options1 <= 1)%nat ->
  Strict.parseTag tag1 = Strict.parseTag tag2 /\
  Loose.parseTag tag1 = Loose.parseTag tag2.
Proof.
  intros Hl1 Hl2 Hs1 Hs2 Hp Hall Hd. split.
  - unfold Strict.parseTag. rewrite Hl1, Hl2.
    assert (isEmpty raw1 = isEmpty raw2) as ->.
    { destruct raw1, raw2; try done; simpl in *; simplify_eq.
      - destruct (Ascii.eqb a ","); [simplify_eq|].
        + apply Permutation_nil_l in Hp. symmetry in Hp. by apply Split_not_nil in Hp.
        + destruct (Split_cons raw2 ",") as (x & xs & Ex). rewrite Ex in Hs2. simplify_eq.
      - destruct (Ascii.eqb a ","); [simplify_eq|].
        + apply Permutation_nil_r in Hp. by apply Split_not_nil in Hp.
        + destruct (Split_cons raw1 ",") as (x & xs & Ex). rewrite Ex in Hs1. simplify_eq. }
    rewrite Hs1, Hs2. destruct (isEmpty raw2), (isEmpty name); try done.
    by apply Strict_parseOptions_Permutation.
  - unfold Loose.parseTag. rewrite Hl1, Hl2, Hs1, Hs2.
    destruct (isEmpty name); [done|].
    by rewrite (Loose_parseOptions_Permutation _ _ Hp Hall Hd).
Qed.
End OptionOrder.

(** ** Slices of integers *)

Section IntSlices.
Import Strings Strconv Reflect Os.
Context `{Floats}.
Implicit Types (environ : Environ) (fields pre post : list (StructField * Value)).

(** a [NumError] names the string that failed to parse *)
Lemma parseInt_Num fn s bitSize numErr : parseInt fn s bitSize = inr numErr -> Num numErr = s.
Proof.
  unfold parseInt. intros Hp. repeat case_match; by simplify_eq.
Qed.

Lemma Atoi_Num s numErr : Atoi s = inr numErr -> Num numErr = s.
Proof. apply parseInt_Num. Qed.

(** the loop over the elements stops at the first element that is no
    integer *)
Lemma Strict_parseInts_error elements element numErr :
  element ∈ elements ->
  Atoi element = inr numErr ->
  exists bad badErr,
    bad ∈ elements /\ Atoi bad = inr badErr /\ Num badErr = bad /\
    Strict.parseInts elements = inr (Strict.errParseInt bad badErr).
Proof.
  intros Hin Ha. induction elements as [|el elements IH]; [by apply elem_of_nil in Hin|].
  cbn [Strict.parseInts]. destruct (Atoi el) as [n|e] eqn:Hel.
  - apply elem_of_cons in Hin as [->|Hin]; [congruence|].
    destruct (IH Hin) as (bad & badErr & Hb1 & Hb2 & Hb3 & ->).
    exists bad, badErr. split_and!; try done. by apply elem_of_cons; right.
  - exists el, e. split_and!; try done; [by apply elem_of_cons; left|by apply Atoi_Num].
Qed.

Lemma Loose_parseInts_error values element numErr :
  element ∈ values ->
  Atoi element = inr numErr ->
  exists bad badErr,
    bad ∈ values /\ Atoi bad = inr badErr /\ Num badErr = bad /\
    Loose.parseInts values = inr (Loose.errParsingIntSlice badErr).
Proof.
  intros Hin Ha. induction values as [|v values IH]; [by apply elem_of_nil in Hin|].
  cbn [Loose.parseInts]. destruct (Atoi v) as [n|e] eqn:Hv.
  - apply elem_of_cons in Hin as [->|Hin]; [congruence|].
    destruct (IH Hin) as (bad & badErr & Hb1 & Hb2 & Hb3 & ->).
    exists bad, badErr. split_and!; try done. by apply elem_of_cons; right.
  - exists v, e. split_and!; try done; [by apply elem_of_cons; left|by apply Atoi_Num].
Qed.

(** *** the loop of the loose revision *)

Lemma Loose_Parse_record environ fields :
  Loose.Parse environ (record fields) =
    let '(fields', err) := fieldLoop (Loose.iteration environ true) fields in
    Loose.Returns (record fields') err.
Proof.
  unfold Loose.Parse, record. cbn [TypeOf Loose.elemType Loose.elemValue Loose.addressable].
  by destruct (fieldLoop _ _).
Qed.

Lemma Loose_Parse_record_inv environ fields out err :
  Loose.Parse environ (record fields) = Loose.Returns out err ->
  exists fields',
    out = record fields' /\
    fieldLoop (Loose.iteration environ true) fields = (fields', err).
Proof.
  rewrite Loose_Parse_record. destruct (fieldLoop _ _) as [fields' e].
  intros; simplify_eq. eauto.
Qed.

Lemma Loose_Parse_iteration_error environ fields i field fieldValue err :
  fields !! i = Some (field, fieldValue) ->
  Loose.iteration environ true field fieldValue = (fieldValue, Some err) ->
  (forall out, Loose.Parse environ (record fields) <> Loose.Returns out None) /\
  (forall fields' err',
     Loose.Parse environ (record fields) = Loose.Returns (record fields') err' ->
     fields' !! i = Some (field, fieldValue)) /\
  forall pre',
    Loose.Parse environ (record (take i fields)) = Loose.Returns (record pre') None ->
    Loose.Parse environ (record fields) =
      Loose.Returns (record (pre' ++ (field, fieldValue) :: drop (S i) fields)) (Some err).
Proof.
  intros Hi Hit. split_and!.
  - intros out HP. apply Loose_Parse_record_inv in HP as (fs & _ & Hloop).
    pose proof (fieldLoop_error (Loose.iteration environ true) fields i field fieldValue Hi) as He.
    rewrite Hit, Hloop in He. by apply He.
  - intros fields' err' HP. apply Loose_Parse_record_inv in HP as (fs & Hfs & Hloop).
    apply record_inj in Hfs as <-.
    pose proof (fieldLoop_lookup_unchanged (Loose.iteration environ true) fields i _ _ Hi) as Hu.
    rewrite Hit, Hloop in Hu. by apply Hu.
  - intros pre' Hp. apply Loose_Parse_record_inv in Hp as (pre'' & Hp1 & Hp2).
    apply record_inj in Hp1 as <-.
    rewrite (fields_split fields i _ Hi) at 1.
    rewrite Loose_Parse_record.
    by rewrite (fieldLoop_stop _ _ _ _ _ _ _ _ Hp2 Hit).
Qed.

Lemma Strict_Parse_unchanged environ fields fields' i field fieldValue err err' :
  fields !! i = Some (field, fieldValue) ->
  Strict.iteration environ (Strict.parseStruct environ) field fieldValue = (fieldValue, Some err) ->
  Strict.Parse environ (record fields) = (record fields', err') ->
  fields' !! i = Some (field, fieldValue).
Proof.
  intros Hi Hit HP. apply Parse_record_inv in HP as (fs & Hfs & Hloop).
  apply record_inj in Hfs as <-.
  pose proof (fieldLoop_lookup_unchanged
                (Strict.iteration environ (Strict.parseStruct environ)) fields i _ _ Hi) as Hu.
  rewrite Hit, Hloop in Hu. by apply Hu.
Qed.

(** C8.  A field of type [[]int] whose resolved string has an element that
    [strconv.Atoi] rejects (the string is not empty: the empty string has
    no element): in both revisions [Parse] returns an error and the field
    keeps the slice it had, so no part of the sequence is assigned.  When the fields before bind, the error is
    the conversion error of the field, and it carries the first element
    that is no integer ([bad], the [Num] of the [strconv.NumError]). *)
Theorem int_slice_element_failure environ fields i field old value element numErr :
  fields !! i = Some (field, VSlice (TInt Int) old) ->
  IsExported field = true ->
  value <> "" ->
  element ∈ Split value "," ->
  Atoi element = inr numErr ->
  exists bad badErr,
    bad ∈ Split value "," /\ Atoi bad = inr badErr /\ Num badErr = bad /\
    (forall tag,
       Loose.parseTag (Reflect.Tag field) = (tag, true, None) ->
       Loose.resolve environ tag = value ->
       (forall out, Loose.Parse environ (record fields) <> Loose.Returns out None) /\
       (forall fields' err,
          Loose.Parse environ (record fields) = Loose.Returns (record fields') err ->
          fields' !! i = Some (field, VSlice (TInt Int) old)) /\
       (forall pre',
          Loose.Parse environ (record (take i fields)) = Loose.Returns (record pre') None ->
          Loose.Parse environ (record fields) =
            Loose.Returns
              (record (pre' ++ (field, VSlice (TInt Int) old) :: drop (S i) fields))
              (Some (Loose.errParsingSliceField (Name field)
                       (Loose.errParsingIntSlice badErr))))) /\
    (forall tag,
       Strict.parseTag (Reflect.Tag field) = (tag, true, None) ->
       Strict.resolve environ tag = Some value ->
       (Strict.Parse environ (record fields)).2 <> None /\
       (forall fields' err,
          Strict.Parse environ (record fields) = (record fields', err) ->
          fields' !! i = Some (field, VSlice (TInt Int) old)) /\
       (forall pre',
          Strict.Parse environ (record (take i fields)) = (record pre', None) ->
          Strict.Parse environ (record fields) =
            (record (pre' ++ (field, VSlice (TInt Int) old) :: drop (S i) fields),
             Some (Strict.errSetField (Name field) (Strict.errParseInt bad badErr))))).
Proof.
  intros Hi Hx Hv Hin Ha.
  destruct (Loose_parseInts_error _ _ _ Hin Ha) as (bad & badErr & Hb1 & Hb2 & Hb3 & HL).
  destruct (Strict_parseInts_error _ _ _ Hin Ha) as (bad' & badErr' & _ & Hb2' & _ & HS).
  assert (bad' = bad /\ badErr' = badErr) as [-> ->].
  { clear -HL HS Hb3. revert HL HS.
    induction (Split value ",") as [|el els IH]; [done|].
    cbn [Loose.parseInts Strict.parseInts].
    destruct (Atoi el) as [n|e] eqn:Hel.
    - destruct (Loose.parseInts els), (Strict.parseInts els); intros; simplify_eq.
      by apply IH.
    - intros; simplify_eq. split; [|done]. by apply Atoi_Num in Hel.
      }
  apply isEmpty_false in Hv.
  exists bad, badErr. split_and!; try done.
  - intros tag Ht Hr.
    apply (Loose_Parse_iteration_error environ fields i field (VSlice (TInt Int) old)); [done|].
    unfold Loose.iteration. rewrite Hx, Ht. cbn [andb negb].
    fold (Loose.resolve environ tag). rewrite Hr, Hv. cbn [andb].
    unfold Loose.parseSlice. by rewrite HL.
  - intros tag Ht Hr.
    assert (Strict.iteration environ (Strict.parseStruct environ) field (VSlice (TInt Int) old)
            = (VSlice (TInt Int) old,
               Some (Strict.errSetField (Name field) (Strict.errParseInt bad badErr)))) as Hit.
    { rewrite (iteration_resolved _ _ _ _ tag value) by done.
      unfold Strict.setField, Strict.parseSlice. cbn [negb]. by rewrite Hv, HS. }
    destruct (Parse_iteration_error environ fields i field _ _ _ Hi Hit) as [H1 H2].
    split_and!; [done| |done].
    intros fields' err. by apply Strict_Parse_unchanged with (err := Strict.errSetField (Name field) (Strict.errParseInt bad badErr)).
Qed.

End IntSlices.

(** ** Determinism *)

Section Determinism.
Import Strconv Reflect Os.
Context `{Floats}.

End Determinism.

(** ** The binder on concrete records *)

Section Evaluation.
Import Strings Strconv Reflect Os Options Examples.

(** the test "combination of types" of src/env_test.go, in both
    revisions *)
Example Strict_binds_config :
  Strict.Parse configEnv (record config) = (record configBound, None).
Proof. reflexivity. Qed.

Example Loose_binds_config :
  Loose.Parse configEnv (record config) = Loose.Returns (record configBound) None.
Proof. reflexivity. Qed.

(** a variable set to the empty string wins over the default *)
Lemma Strict_environment_wins_witness :
  exists converted,
    Strict.setField true (VString "initial") "" = (converted, None) /\
    withDefault "" !! 0%nat
      = Some (field "WithDefault" "WITH_DEFAULT,default=default-value", converted).
Proof.
  exact (Strict_environment_wins emptyEnv (withDefault "initial") (withDefault "") 0
           (field "WithDefault" "WITH_DEFAULT,default=default-value") (VString "initial")
           (Strict.mkTag "WITH_DEFAULT" false "default-value")
           eq_refl eq_refl eq_refl eq_refl eq_refl).
Defined.

(** the nil interface *)
Lemma Strict_invalid_input_witness :
  exists err,
    Strict.Parse configEnv None = (None, Some err) /\
    (err = Strict.errNonNilPointer \/ err = Strict.errNotStruct).
Proof.
  apply (Strict_invalid_input configEnv None). intros fields. discriminate.
Defined.

(** an optional field of a map type, in a record of optional fields none
    of whose variables is set *)
Lemma Strict_optional_unset_witness :
  exists fields' err,
    Strict.Parse ∅ (record optionals) = (record fields', err) /\
    fields' !! 4%nat = Some (field "Labels" "LABELS,optional", VOpaque Map) /\
    Strict.Parse ∅ (record (delete 4%nat optionals)) = (record (delete 4%nat fields'), err).
Proof.
  apply (Strict_optional_unset ∅ optionals 4
           (field "Labels" "LABELS,optional") (VOpaque Map) (Strict.mkTag "LABELS" true ""));
    reflexivity.
Defined.

Example Strict_optionals_unset :
  Strict.Parse ∅ (record optionals) = (record optionals, None).
Proof. reflexivity. Qed.

(** [DEBUG=true] on a boolean field *)
Lemma Strict_bool_field_witness :
  exists parsed,
    ParseBool "true" = inl parsed /\
    debug true !! 1%nat = Some (field "Debug" "DEBUG", VBool parsed).
Proof.
  destruct (Strict_bool_field (debugEnv "true") (debug false) 1
              (field "Debug" "DEBUG") false (Strict.mkTag "DEBUG" false "") "true"
              eq_refl eq_refl eq_refl eq_refl) as [Hok _].
  apply (Hok [(field "AppName" "APP_NAME", VString "svc"); (field "Debug" "DEBUG", VBool true)]).
  reflexivity.
Defined.

Example Strict_bool_unrecognised :
  Strict.Parse (debugEnv "yes") (record (debug false)) =
    (record [(field "AppName" "APP_NAME", VString "svc"); (field "Debug" "DEBUG", VBool false)],
     Some (Strict.errSetField "Debug"
             (Strict.errParseBool "yes" (mkNumError "ParseBool" "yes" ErrSyntax)))).
Proof. reflexivity. Qed.

(** C5, as stated, fails.  An optional field of a map type whose variable
    is not set is skipped, and [Parse] returns no error.  A field of a
    struct type is descended into, its tag is not read: with its variable
    set, [Parse] returns no error and the field is as it was. *)
Lemma Strict_unsupported_type_counterexample :
  (Strict.parseTag (Reflect.Tag (field "Labels" "LABELS,optional"))
     = (Strict.mkTag "LABELS" true "", true, None) /\
   Strict.unsupported (VOpaque Map) = true /\
   Strict.Parse ∅ (record (labels "LABELS,optional"))
     = (record (labels "LABELS,optional"), None)) /\
  (Strict.parseTag (Reflect.Tag (field "Started" "STARTED"))
     = (Strict.mkTag "STARTED" false "", true, None) /\
   LookupEnv startedEnv "STARTED" = Some "2024-01-01T00:00:00Z" /\
   Strict.Parse startedEnv (record started) = (record started, None)).
Proof. split_and!; reflexivity. Qed.

(** a required field of a map type whose variable is not set: the error
    is that of the missing variable *)
Example Strict_unsupported_type_unset :
  Strict.Parse ∅ (record (labels "LABELS"))
    = (record (labels "LABELS"), Some (Strict.errRequiredNotSet "LABELS")).
Proof. reflexivity. Qed.

(** a field of type [[]float64] whose variable is set to the empty string
    is assigned an empty slice: [parseSlice] returns before it looks at
    the element type *)
Example Strict_unsupported_elem_empty :
  Strict.Parse labelsEnv (record ratios)
    = (record [(field "Ratios" "RATIOS", VSlice (TFloat Float64) (Some []))], None).
Proof. reflexivity. Qed.

(** a field of a map type whose variable is set *)
Lemma Strict_unsupported_type_witness :
  (Strict.Parse labelsEnv (record (labels "LABELS"))).2 <> None /\
  forall pre',
    Strict.Parse labelsEnv (record (take 0 (labels "LABELS"))) = (record pre', None) ->
    Strict.Parse labelsEnv (record (labels "LABELS")) =
      (record (pre' ++ (field "Labels" "LABELS", VOpaque Map) :: drop 1 (labels "LABELS")),
       Some (Strict.errSetField "Labels" (Strict.errUnsupportedField (TOpaque Map)))).
Proof.
  apply (Strict_unsupported_type labelsEnv (labels "LABELS") 0
           (field "Labels" "LABELS") (VOpaque Map) (Strict.mkTag "LABELS" false "") "a=b");
    try reflexivity.
  left. split; reflexivity.
Defined.

(** the tag ["NAME,frobnicate"] *)
Lemma Strict_unknown_option_witness :
  Strict.parseTag [("env", "NAME,frobnicate")]
    = (Strict.zeroTag, false, Some (Strict.errUnknownOption "frobnicate")).
Proof.
  destruct (Strict_unknown_option [("env", "NAME,frobnicate")] "NAME,frobnicate"
              "NAME" ["frobnicate"] "frobnicate" eq_refl eq_refl) as (_ & Hunknown & _).
  - apply elem_of_cons; left. reflexivity.
  - reflexivity.
  - apply (Hunknown [] []); try reflexivity; [discriminate|constructor].
Defined.

Example Strict_frobnicate :
  Strict.Parse nameEnv (record frobnicate)
    = (record frobnicate,
       Some (Strict.errInvalidTag "Name" (Strict.errUnknownOption "frobnicate"))) /\
  Strict.Parse ∅ (record frobnicate)
    = (record frobnicate,
       Some (Strict.errInvalidTag "Name" (Strict.errUnknownOption "frobnicate"))).
Proof. split; reflexivity. Qed.

(** the test "invalid int slice element": [PORTS=8080,invalid,9000] *)
Lemma int_slice_element_failure_witness :
  exists bad badErr,
    bad ∈ Split "8080,invalid,9000" "," /\ Atoi bad = inr badErr /\ Num badErr = bad /\
    Loose.Parse portsEnv (record ports) =
      Loose.Returns (record ports)
        (Some (Loose.errParsingSliceField "Ports" (Loose.errParsingIntSlice badErr))) /\
    Strict.Parse portsEnv (record ports) =
      (record ports, Some (Strict.errSetField "Ports" (Strict.errParseInt bad badErr))).
Proof.
  destruct (int_slice_element_failure portsEnv ports 0 (field "Ports" "PORTS") None
              "8080,invalid,9000" "invalid" (mkNumError "Atoi" "invalid" ErrSyntax)
              eq_refl eq_refl)
    as (bad & badErr & Hin & Hbad & Hnum & HL & HS).
  - discriminate.
  - apply elem_of_cons; right. apply elem_of_cons; left. reflexivity.
  - reflexivity.
  - exists bad, badErr. split_and!; try assumption.
    + destruct (HL (Loose.mkTag "PORTS" false "") eq_refl eq_refl) as (_ & _ & Hfail).
      apply (Hfail []). reflexivity.
    + destruct (HS (Strict.mkTag "PORTS" false "") eq_refl eq_refl) as (_ & _ & Hfail).
      apply (Hfail []). reflexivity.
Defined.

Example int_slice_invalid :
  Loose.Parse portsEnv (record ports) =
    Loose.Returns (record ports)
      (Some (Loose.errParsingSliceField "Ports"
               (Loose.errParsingIntSlice (mkNumError "Atoi" "invalid" ErrSyntax)))) /\
  Strict.Parse portsEnv (record ports) =
    (record ports,
     Some (Strict.errSetField "Ports"
             (Strict.errParseInt "invalid" (mkNumError "Atoi" "invalid" ErrSyntax)))).
Proof. split; reflexivity. Qed.


(** [optional,default=test] and [default=test,optional] *)
Lemma option_order_immaterial_witness :
  Strict.parseTag [("env", "APP_NAME,optional,default=test")]
    = Strict.parseTag [("env", "APP_NAME,default=test,optional")] /\
  Loose.parseTag [("env", "APP_NAME,optional,default=test")]
    = Loose.parseTag [("env", "APP_NAME,default=test,optional")].
Proof.
  apply (option_order_immaterial
           [("env", "APP_NAME,optional,default=test")]
           [("env", "APP_NAME,default=test,optional")]
           "APP_NAME,optional,default=test" "APP_NAME,default=test,optional"
           "APP_NAME" ["optional"; "default=test"] ["default=test"; "optional"]);
    try reflexivity.
  - apply perm_swap.
  - repeat constructor.
Defined.

Example parseTag_combined :
  Strict.parseTag [("env", "APP_NAME,default=test,optional")]
    = (Strict.mkTag "APP_NAME" true "test", true, None) /\
  Loose.parseTag [("env", "APP_NAME,default=test,optional")]
    = (Loose.mkTag "APP_NAME" true "test", true, None).
Proof. split; reflexivity. Qed.

(** *** Where src/env.go differs from the strict revision *)

(** [os.Getenv] cannot tell a variable set to the empty string from an
    unset one: the default is taken. *)
Example Loose_empty_value_takes_default :
  Loose.Parse emptyEnv (record (withDefault "initial"))
    = Loose.Returns (record (withDefault "default-value")) None.
Proof. reflexivity. Qed.

(** The input is not validated: the nil interface panics, a struct passed
    by value is left as it is without error. *)
Example Loose_input_not_validated :
  Loose.Parse configEnv None = Loose.Panics /\
  Loose.Parse configEnv (Some (VNilPtr (TStruct [(field "AppName" "APP_NAME", TString)])))
    = Loose.Panics /\
  Loose.Parse configEnv (Some (VString "svc")) = Loose.Panics /\
  Loose.Parse configEnv (Some (VStruct config)) = Loose.Returns (Some (VStruct config)) None.
Proof. split_and!; reflexivity. Qed.

(** An optional field whose variable is unset is converted from the empty
    string: a [[]string] becomes [[""]], an [int] is an error. *)
Example Loose_optional_unset :
  Loose.Parse ∅ (record optionals) =
    Loose.Returns
      (record [ (field "Name" "NAME,optional", VString "");
                (field "Hosts" "HOSTS,optional", VSlice TString (Some [VString ""]));
                (field "Port" "PORT,optional", VInt Int 0);
                (field "Debug" "DEBUG,optional", VBool false);
                (field "Labels" "LABELS,optional", VOpaque Map) ])
      (Some (Loose.errParsingIntField "Port" (mkNumError "ParseInt" "" ErrSyntax))).
Proof. reflexivity. Qed.

(** Fields of a kind other than slice, string and int are passed over:
    a boolean field is not assigned, a map field raises no error. *)
Example Loose_other_kinds_skipped :
  Loose.Parse (debugEnv "true") (record (debug false))
    = Loose.Returns
        (record [(field "AppName" "APP_NAME", VString "svc"); (field "Debug" "DEBUG", VBool false)])
        None /\
  Loose.Parse labelsEnv (record (labels "LABELS"))
    = Loose.Returns (record (labels "LABELS")) None.
Proof. split; reflexivity. Qed.

(** An unknown option is ignored. *)
Example Loose_unknown_option_ignored :
  Loose.parseTag [("env", "NAME,frobnicate")] = (Loose.mkTag "NAME" false "", true, None).
Proof. reflexivity. Qed.

(** The empty string splits into one empty element. *)
Example Loose_empty_string_slice :
  Loose.parseSlice "" TString = inl (stringSlice [""]).
Proof. reflexivity. Qed.
End Evaluation.

(** * Further properties of the code *)

(** ** The order of binding *)

Section BindingOrder.
Import Strconv Reflect Os.
Context `{Floats}.
Implicit Types (environ : Environ) (fields pre post : list (StructField * Value)).

(** X1.  Binding stops at the first error and nothing is rolled back, in
    both revisions: when [Parse] returns an error on the fields [pre], it
    returns the same error on [pre ++ post], the fields of [pre] are as that
    call left them and the fields of [post] are untouched. *)
Theorem Parse_stops_at_first_error environ pre post :
  (forall pre' err,
     Strict.Parse environ (record pre) = (record pre', Some err) ->
     Strict.Parse environ (record (pre ++ post)) = (record (pre' ++ post), Some err)) /\
  (forall pre' err,
     Loose.Parse environ (record pre) = Loose.Returns (record pre') (Some err) ->
     Loose.Parse environ (record (pre ++ post))
       = Loose.Returns (record (pre' ++ post)) (Some err)).
Proof.
  split; intros pre' err HP.
  - apply Parse_record_inv in HP as (fs & Hfs & Hloop).
    apply record_inj in Hfs as <-.
    by rewrite Parse_record, fieldLoop_app, Hloop.
  - apply Loose_Parse_record_inv in HP as (fs & Hfs & Hloop).
    apply record_inj in Hfs as <-.
    by rewrite Loose_Parse_record, fieldLoop_app, Hloop.
Qed.

(** X2.  Fields are bound one after the other and independently, in both
    revisions: when [Parse] binds the fields [pre] without error, its result
    on [pre ++ post] is the fields of [pre] as bound, followed by the result
    of [Parse] on [post] alone, with the error of that call. *)
Theorem Parse_binds_in_sequence environ pre post :
  (forall pre' post' err,
     Strict.Parse environ (record pre) = (record pre', None) ->
     Strict.Parse environ (record post) = (record post', err) ->
     Strict.Parse environ (record (pre ++ post)) = (record (pre' ++ post'), err)) /\
  (forall pre' post' err,
     Loose.Parse environ (record pre) = Loose.Returns (record pre') None ->
     Loose.Parse environ (record post) = Loose.Returns (record post') err ->
     Loose.Parse environ (record (pre ++ post))
       = Loose.Returns (record (pre' ++ post')) err).
Proof.
  split; intros pre' post' err HP HQ.
  - apply Parse_record_inv in HP as (fs & Hfs & Hloop).
    apply record_inj in Hfs as <-.
    apply Parse_record_inv in HQ as (gs & Hgs & Hloop').
    apply record_inj in Hgs as <-.
    by rewrite Parse_record, fieldLoop_app, Hloop, Hloop'.
  - apply Loose_Parse_record_inv in HP as (fs & Hfs & Hloop).
    apply record_inj in Hfs as <-.
    apply Loose_Parse_record_inv in HQ as (gs & Hgs & Hloop').
    apply record_inj in Hgs as <-.
    by rewrite Loose_Parse_record, fieldLoop_app, Hloop, Hloop'.
Qed.
End BindingOrder.

(** ** Fields the strict revision skips, descends into or requires *)

Section StrictFields.
Import Strconv Reflect Os Strict.
Context `{Floats}.
Implicit Types (environ : Environ) (fields pre post : list (StructField * Value)).

(** a field whose iteration does nothing can be left out of the record *)
Lemma Strict_inert environ fields i field fieldValue :
  fields !! i = Some (field, fieldValue) ->
  iteration environ (parseStruct environ) field fieldValue = (fieldValue, None) ->
  exists fields' err,
    Parse environ (record fields) = (record fields', err) /\
    fields' !! i = Some (field, fieldValue) /\
    Parse environ (record (delete i fields)) = (record (delete i fields'), err).
Proof.
  intros Hi Hit.
  destruct (fieldLoop_skip (iteration environ (parseStruct environ))
              (take i fields) (drop (S i) fields) _ _ Hit)
    as (pre' & post' & err & Hlen & H1 & H2).
  rewrite <- (fields_split _ _ _ Hi) in H1.
  assert (i < length fields)%nat as Hlt by (by eapply lookup_lt_Some).
  assert (length pre' = i) as Hpre by (rewrite Hlen, length_take; lia).
  exists (pre' ++ (field, fieldValue) :: post'), err. split_and!.
  - by rewrite Parse_record, H1.
  - rewrite lookup_app_r by lia. by rewrite Hpre, Nat.sub_diag.
  - rewrite Parse_record.
    replace (delete i fields) with (take i fields ++ drop (S i) fields)
      by (by rewrite delete_take_drop).
    rewrite H2. f_equal. f_equal.
    rewrite delete_take_drop.
    rewrite take_app_length' by done.
    by rewrite cons_middle, app_assoc, drop_app_length' by (rewrite length_app; simpl; lia).
Qed.

(** X3.  A field that is not exported, whatever its tag and its type, and
    an exported field without [env] key in its tag (other than a nested
    struct) take no part in the binding: [Parse] leaves the field as it is,
    and binds the record exactly as it binds the record without that
    field, with the same error. *)
Theorem Strict_skipped_field environ fields i field fieldValue :
  fields !! i = Some (field, fieldValue) ->
  IsExported field = false \/
    (nested fieldValue = false /\ Lookup (Reflect.Tag field) "env" = None) ->
  exists fields' err,
    Parse environ (record fields) = (record fields', err) /\
    fields' !! i = Some (field, fieldValue) /\
    Parse environ (record (delete i fields)) = (record (delete i fields'), err).
Proof.
  intros Hi Hcase. apply Strict_inert; [done|].
  destruct Hcase as [Hx|[Hn Hl]]; [by apply iteration_unexported|].
  destruct (IsExported field) eqn:Hx; [|by apply iteration_unexported].
  rewrite iteration_leaf by done. unfold parseTag. by rewrite Hl.
Qed.

(** X4.  A required field (no [optional], no default) whose variable is not
    set makes [Parse] return an error; when the fields before it bind, the
    error is "required environment variable not set" with the name of the
    variable, those fields keep what they were bound to, and the field and
    the fields after it are untouched. *)
Theorem Strict_required_unset environ fields i field fieldValue tag :
  fields !! i = Some (field, fieldValue) ->
  IsExported field = true ->
  nested fieldValue = false ->
  parseTag (Reflect.Tag field) = (tag, true, None) ->
  Optional tag = false ->
  Default tag = "" ->
  LookupEnv environ (Env tag) = None ->
  (Parse environ (record fields)).2 <> None /\
  forall pre',
    Parse environ (record (take i fields)) = (record pre', None) ->
    Parse environ (record fields) =
      (record (pre' ++ (field, fieldValue) :: drop (S i) fields),
       Some (errRequiredNotSet (Env tag))).
Proof.
  intros Hi Hx Hn Ht Ho Hd Hl.
  apply (Parse_iteration_error environ fields i field fieldValue); [done|].
  by rewrite iteration_leaf, Ht, Hl, Ho, Hd.
Qed.

(** X5.  A field of a struct type, and a field that is a non-nil pointer to
    a struct, is bound as a record of its own: an exported field holding
    the struct [inner] ends as [Parse] leaves a pointer to [inner], and an
    error of the inner struct is returned as it is, without the name of the
    outer field.  The tag of the outer field is not read. *)
Theorem Strict_nested_struct environ field inner inner' err :
  IsExported field = true ->
  Parse environ (record inner) = (record inner', err) ->
  Parse environ (record [(field, VStruct inner)])
    = (record [(field, VStruct inner')], err) /\
  Parse environ (record [(field, VPtr (VStruct inner))])
    = (record [(field, VPtr (VStruct inner'))], err).
Proof.
  intros Hx HP. apply Parse_record_inv in HP as (fs & Hfs & Hloop).
  apply record_inj in Hfs as <-.
  split; rewrite Parse_record; cbn [fieldLoop]; unfold iteration; rewrite Hx;
    cbn [negb]; rewrite parseStruct_struct, Hloop; by destruct err.
Qed.
End StrictFields.

(** ** What binding keeps: the shape of the record *)

Section Shape.
Import Strconv Reflect Os Descent.
Context `{Floats}.
Implicit Types (environ : Environ) (fields pre post : list (StructField * Value)).

(** induction on a value whose struct fields satisfy the property *)
Lemma Value_nested_ind (P : Value -> Prop) :
  (forall b, P (VBool b)) ->
  (forall k n, P (VInt k n)) ->
  (forall k x, P (VFloat k x)) ->
  (forall s, P (VString s)) ->
  (forall elem xs, P (VSlice elem xs)) ->
  (forall elem, P (VNilPtr elem)) ->
  (forall target, P target -> P (VPtr target)) ->
  (forall fields, Forall (fun fv => P fv.2) fields -> P (VStruct fields)) ->
  (forall k, P (VOpaque k)) ->
  forall v, P v.
Proof.
  intros HB HI HF HS HSl HN HP HSt HO.
  fix IH 1. intros [b|k n|k x|s|elem xs|elem|target|fields|k];
    [apply HB|apply HI|apply HF|apply HS|apply HSl|apply HN|apply HP, IH| |apply HO].
  apply HSt. induction fields as [|[f v] fields IHf]; constructor; [apply IH|apply IHf].
Qed.

(** induction on the fields of a record, along the descent of
    [Strict.parseStruct] *)
Lemma fields_nested_ind (P : list (StructField * Value) -> Prop) :
  (forall fields, Forall (fun fv => descends P fv.2) fields -> P fields) ->
  forall fields, P fields.
Proof.
  intros HP fields.
  assert (forall v, descends P v) as Hall.
  { induction v as [b|k n|k x|s|elem xs|elem|target IH|inner IH|k] using Value_nested_ind;
      try exact I.
    - by destruct target.
    - by apply HP. }
  apply HP. apply Forall_forall. intros fv _. apply Hall.
Qed.

(** the loop relates each field to itself after the loop, by any reflexive
    relation every iteration respects *)
Lemma fieldLoop_Forall2 {Err : Type} (body : StructField -> Value -> Value * option Err)
    (R : Value -> Value -> Prop) fields :
  (forall v, R v v) ->
  Forall (fun fv => R fv.2 (body fv.1 fv.2).1) fields ->
  Forall2 (fun fv fv' => fv.1 = fv'.1 /\ R fv.2 fv'.2) fields (fieldLoop body fields).1.
Proof.
  intros Hrefl Hall. induction Hall as [|[f v] rest Hv Hall IH]; [constructor|].
  cbn [fieldLoop]. simpl in Hv. destruct (body f v) as [v' [e|]]; simpl in *.
  - constructor; [done|]. clear -Hrefl. induction rest; constructor; auto.
  - destruct (fieldLoop body rest) as [rest' e]. by constructor.
Qed.

(** running the loop again changes nothing when running an iteration again
    changes nothing *)
Lemma fieldLoop_idempotent {Err : Type} (body : StructField -> Value -> Value * option Err)
    fields :
  Forall (fun fv => body fv.1 (body fv.1 fv.2).1 = body fv.1 fv.2) fields ->
  fieldLoop body (fieldLoop body fields).1 = fieldLoop body fields.
Proof.
  induction 1 as [|[f v] rest Hv Hall IH]; [done|].
  cbn [fieldLoop]. simpl in Hv.
  destruct (body f v) as [v' [e|]] eqn:Ev; simpl in *.
  - by rewrite Hv.
  - destruct (fieldLoop body rest) as [rest' e] eqn:Er. simpl in *.
    by rewrite Hv, IH.
Qed.

Lemma TypeOf_struct fields fields' :
  Forall2 (fun fv fv' => fv.1 = fv'.1 /\ TypeOf fv.2 = TypeOf fv'.2) fields fields' ->
  TypeOf (VStruct fields) = TypeOf (VStruct fields').
Proof.
  intros Hall. cbn [TypeOf]. f_equal.
  induction Hall as [|[f v] [f' v'] l l' [Hf Hv] _ IH]; [done|].
  simpl in *. by rewrite Hf, Hv, IH.
Qed.

(** *** the strict revision *)


Lemma Strict_setField_nested canSet fieldValue value :
  Strict.nested fieldValue = false ->
  Strict.nested (Strict.setField canSet fieldValue value).1 = false.
Proof.
  unfold Strict.setField, Strict.parseSlice, SetFloat.
  intros Hn. repeat case_match; by simplify_eq.
Qed.

Lemma Strict_setField_idempotent canSet fieldValue value :
  Strict.setField canSet (Strict.setField canSet fieldValue value).1 value
    = Strict.setField canSet fieldValue value.
Proof.
  unfold Strict.setField. destruct canSet; [|done]. cbn [negb].
  destruct fieldValue as [b|k n|k x|s|elem xs|elem|target|fields|k]; try done.
  - destruct (ParseBool value) eqn:E; cbn [fst]; by rewrite ?E.
  - destruct (ParseInt value 64) eqn:E; cbn [fst SetInt]; by rewrite ?E.
  - destruct (ParseFloat value 64) eqn:E; cbn [fst]; [|by rewrite ?E].
    destruct k; cbn [SetFloat]; by rewrite ?E.
  - destruct (Strict.parseSlice value elem) as [sv|e] eqn:E; cbn [fst]; [|by rewrite ?E].
    assert (exists xs', sv = VSlice elem xs') as [xs' ->].
    { unfold Strict.parseSlice in E. repeat case_match; simplify_eq; by eexists. }
    by rewrite ?E.
Qed.




(** an iteration on a field the loop does not descend into leaves such a
    field *)
Lemma Strict_iteration_nested environ ps field fieldValue :
  Strict.nested fieldValue = false ->
  Strict.nested (Strict.iteration environ ps field fieldValue).1 = false.
Proof.
  intros Hn. destruct (IsExported field) eqn:Hx; [|by rewrite iteration_unexported].
  rewrite iteration_leaf by done.
  repeat case_match; simpl; try done;
    match goal with
    | Hs : Strict.setField _ _ ?s = _ |- _ =>
        pose proof (Strict_setField_nested true fieldValue s Hn) as Ht; by rewrite Hs in Ht
    end.
Qed.

(** running an iteration again changes nothing, when that holds of the
    structs it descends into *)
Lemma Strict_iteration_idempotent environ field fieldValue :
  descends
    (fun inner =>
       fieldLoop (Strict.iteration environ (Strict.parseStruct environ))
         (fieldLoop (Strict.iteration environ (Strict.parseStruct environ)) inner).1
       = fieldLoop (Strict.iteration environ (Strict.parseStruct environ)) inner)
    fieldValue ->
  Strict.iteration environ (Strict.parseStruct environ) field
    (Strict.iteration environ (Strict.parseStruct environ) field fieldValue).1
  = Strict.iteration environ (Strict.parseStruct environ) field fieldValue.
Proof.
  intros Hd. destruct (IsExported field) eqn:Hx; [|by rewrite !iteration_unexported].
  destruct (Strict.nested fieldValue) eqn:Hn.
  - unfold Strict.iteration. rewrite Hx. cbn [negb].
    destruct fieldValue as [| | | | | |target| |]; try done.
    + destruct target; try done. simpl in Hd.
      rewrite parseStruct_struct.
      destruct (fieldLoop _ fields) as [fields' e] eqn:El. cbn [fst].
      rewrite parseStruct_struct. rewrite ?El in Hd. simpl in Hd. by rewrite Hd.
    + simpl in Hd. rewrite parseStruct_struct.
      destruct (fieldLoop _ fields) as [fields' e] eqn:El. cbn [fst].
      rewrite parseStruct_struct. rewrite ?El in Hd. simpl in Hd. by rewrite Hd.
  - pose proof (Strict_iteration_nested environ (Strict.parseStruct environ) field
                  fieldValue Hn) as Hn'.
    rewrite (iteration_leaf _ _ _ (Strict.iteration _ _ _ _).1) by done.
    rewrite !(iteration_leaf _ _ _ fieldValue) by done.
    destruct (Strict.parseTag (Reflect.Tag field)) as [[tag ok] [e|]];
      destruct ok; try done.
    assert (forall value,
              match Strict.setField true
                      (match Strict.setField true fieldValue value with
                       | (v', Some err) => (v', Some (Strict.errSetField (Name field) err))
                       | (v', None) => (v', None)
                       end).1 value with
              | (v', Some err) => (v', Some (Strict.errSetField (Name field) err))
              | (v', None) => (v', None)
              end
              = match Strict.setField true fieldValue value with
                | (v', Some err) => (v', Some (Strict.errSetField (Name field) err))
                | (v', None) => (v', None)
                end) as Hset.
    { intros value. pose proof (Strict_setField_idempotent true fieldValue value) as Hi.
      destruct (Strict.setField true fieldValue value) as [v' [e|]]; simpl in *; by rewrite Hi. }
    destruct (LookupEnv environ (Strict.Env tag)); [apply Hset|].
    destruct (Strict.Optional tag); [done|].
    destruct (negb (Strings.isEmpty (Strict.Default tag))); [apply Hset|done].
Qed.

Lemma Strict_fieldLoop_idempotent environ fields :
  fieldLoop (Strict.iteration environ (Strict.parseStruct environ))
    (fieldLoop (Strict.iteration environ (Strict.parseStruct environ)) fields).1
  = fieldLoop (Strict.iteration environ (Strict.parseStruct environ)) fields.
Proof.
  induction fields as [fields IH] using fields_nested_ind.
  apply fieldLoop_idempotent.
  eapply Forall_impl; [exact IH|]. intros [f v] Hv. by apply Strict_iteration_idempotent.
Qed.

(** X7.  [Parse] is idempotent: calling it again on the argument an earlier
    call left, under the same environment, returns the same error and
    leaves the argument as it is, whether the first call succeeded or
    stopped at an error. *)
Theorem Strict_Parse_idempotent environ (v : any) :
  Strict.Parse environ (Strict.Parse environ v).1 = Strict.Parse environ v.
Proof.
  unfold Strict.Parse.
  destruct v as [[b|k n|k x|s|elem xs|elem|target|fields|k]|]; try done.
  destruct target as [b|k n|k x|s|elem xs|elem|target|fields|k]; try done.
  rewrite parseStruct_struct.
  destruct (fieldLoop _ fields) as [fields' e] eqn:El. cbn [fst].
  rewrite parseStruct_struct.
  pose proof (Strict_fieldLoop_idempotent environ fields) as Hi.
  rewrite El in Hi. simpl in Hi. by rewrite Hi.
Qed.
End Shape.

(** *** the loose revision *)

Section LooseShape.
Import Strconv Reflect Os.
Context `{Floats}.
Implicit Types (environ : Environ) (fields pre post : list (StructField * Value)).

Lemma Loose_parseSlice_elem value elem sliceValue :
  Loose.parseSlice value elem = inl sliceValue -> exists xs, sliceValue = VSlice elem xs.
Proof.
  unfold Loose.parseSlice. intros Hp. repeat case_match; simplify_eq; by eexists.
Qed.

Lemma Loose_iteration_TypeOf environ canSet tField vField :
  TypeOf vField = TypeOf (Loose.iteration environ canSet tField vField).1.
Proof.
  unfold Loose.iteration.
  repeat case_match; simplify_eq; try done.
  all: match goal with
       | Hs : Loose.parseSlice _ _ = inl _ |- _ =>
           by apply Loose_parseSlice_elem in Hs as [? ->]
       end.
Qed.

Lemma Loose_iteration_idempotent environ canSet tField vField :
  Loose.iteration environ canSet tField (Loose.iteration environ canSet tField vField).1
  = Loose.iteration environ canSet tField vField.
Proof.
  unfold Loose.iteration.
  destruct (negb (canSet && IsExported tField)); [done|].
  destruct (Loose.parseTag (Reflect.Tag tField)) as [[tag ok] [e|]]; destruct ok; try done.
  destruct (_ && negb (Loose.Optional tag)); [done|].
  set (value := if Strings.isEmpty _ then _ else _).
  destruct vField as [b|k n|k x|s|elem xs|elem|target|fields|k]; try done.
  - destruct k; try done.
    destruct (ParseInt value 64) eqn:E; cbn [fst SetInt]; by rewrite ?E.
  - destruct (Loose.parseSlice value elem) as [sv|e] eqn:E; cbn [fst]; [|by rewrite ?E].
    apply Loose_parseSlice_elem in E as Hsv. destruct Hsv as [xs' ->]. by rewrite E.
Qed.

(** the pointers of an object lead to a value of the type they lead to *)
Lemma Loose_elemValue_TypeOf (o v : Value) :
  Loose.elemValue o = Some v -> TypeOf v = Loose.elemType (TypeOf o).
Proof.
  induction o as [b|k n|k x|s|elem xs|elem|target IH|fields IH|k] using Value_nested_ind;
    cbn [Loose.elemValue TypeOf Loose.elemType]; intros Hv; simplify_eq; try done.
  by apply IH.
Qed.

Lemma Loose_store_TypeOf (o v v' : Value) :
  Loose.elemValue o = Some v -> TypeOf v' = TypeOf v ->
  TypeOf (Loose.store o v') = TypeOf o.
Proof.
  induction o as [b|k n|k x|s|elem xs|elem|target IH|fields IH|k] using Value_nested_ind;
    cbn [Loose.elemValue Loose.store TypeOf]; intros Hv Ht; simplify_eq; try done.
  f_equal. by apply IH.
Qed.

Lemma Loose_store_elemValue (o : Value) fields fields' :
  Loose.elemValue o = Some (VStruct fields) ->
  Loose.elemValue (Loose.store o (VStruct fields')) = Some (VStruct fields') /\
  Loose.addressable (Loose.store o (VStruct fields')) = Loose.addressable o /\
  Loose.store (Loose.store o (VStruct fields')) (VStruct fields')
    = Loose.store o (VStruct fields').
Proof.
  induction o as [b|k n|k x|s|elem xs|elem|target IH|fs IH|k] using Value_nested_ind;
    cbn [Loose.elemValue Loose.store Loose.addressable]; intros Hv; simplify_eq; try done.
  destruct (IH Hv) as (H1 & _ & H3). by rewrite H3.
Qed.

(** the outcome of [Loose.Parse] on an object that leads to a struct *)
Lemma Loose_Parse_struct environ (o : Value) fields :
  Loose.elemValue o = Some (VStruct fields) ->
  Loose.Parse environ (Some o) =
    let '(fields', err) := fieldLoop (Loose.iteration environ (Loose.addressable o)) fields in
    Loose.Returns (Some (Loose.store o (VStruct fields'))) err.
Proof.
  intros Hv. unfold Loose.Parse.
  rewrite <- (Loose_elemValue_TypeOf _ _ Hv), Hv. done.
Qed.

(** whatever [Loose.Parse] returns, it returns on an object that leads to
    a struct, or on a nil pointer to a struct without fields *)
Lemma Loose_Parse_Returns environ obj out err :
  Loose.Parse environ obj = Loose.Returns out err ->
  (exists o fields, obj = Some o /\ Loose.elemValue o = Some (VStruct fields)) \/
  (out = obj /\ err = None /\
   exists o, obj = Some o /\ Loose.elemValue o = None /\
             Loose.elemType (TypeOf o) = TStruct []).
Proof.
  unfold Loose.Parse. intros HP.
  destruct obj as [o|]; [|done].
  destruct (Loose.elemType (TypeOf o)) eqn:Et; try done.
  destruct (Loose.elemValue o) as [v|] eqn:Ev.
  - destruct v; try done. left. eauto.
  - destruct fields; [|done]. simplify_eq. right. split_and!; try done. eauto.
Qed.

(** X8.  The loose revision, too, never changes the shape of its argument:
    when [Parse] returns, with or without error, the argument has the type
    it had. *)
Theorem Loose_Parse_keeps_type environ obj out err :
  Loose.Parse environ obj = Loose.Returns out err ->
  TypeOf <$> out = TypeOf <$> obj.
Proof.
  intros HP. destruct (Loose_Parse_Returns _ _ _ _ HP)
    as [(o & fields & -> & Hv)|(-> & _)]; [|done].
  rewrite (Loose_Parse_struct _ _ _ Hv) in HP.
  pose proof (fieldLoop_Forall2 (Loose.iteration environ (Loose.addressable o))
                (fun v v' => TypeOf v = TypeOf v') fields) as Hl.
  destruct (fieldLoop _ fields) as [fields' e]. simplify_eq. simpl. f_equal.
  apply (Loose_store_TypeOf _ _ _ Hv). symmetry. apply TypeOf_struct, Hl; [done|].
  apply Forall_forall. intros [f v] _. apply Loose_iteration_TypeOf.
Qed.

(** X9.  The loose revision is idempotent as well: when [Parse] returns,
    calling it again on the argument it left, under the same environment,
    returns the same error and leaves the argument as it is. *)
Theorem Loose_Parse_idempotent environ obj out err :
  Loose.Parse environ obj = Loose.Returns out err ->
  Loose.Parse environ out = Loose.Returns out err.
Proof.
  intros HP. destruct (Loose_Parse_Returns _ _ _ _ HP)
    as [(o & fields & -> & Hv)|(-> & -> & _)]; [|done].
  rewrite (Loose_Parse_struct _ _ _ Hv) in HP.
  destruct (fieldLoop _ fields) as [fields' e] eqn:El. simplify_eq.
  destruct (Loose_store_elemValue o fields fields' Hv) as (H1 & H2 & H3).
  rewrite (Loose_Parse_struct _ _ _ H1), H2.
  pose proof (fieldLoop_idempotent (Loose.iteration environ (Loose.addressable o)) fields) as Hi.
  rewrite El in Hi. simpl in Hi. rewrite Hi, H3; [done|].
  apply Forall_forall. intros [f v] _. apply Loose_iteration_idempotent.
Qed.
End LooseShape.

(** ** The loose revision: what it passes over, when it panics *)

Section LooseFields.
Import Strings Strconv Reflect Os Kinds.
Context `{Floats}.
Implicit Types (environ : Environ) (fields pre post : list (StructField * Value)).

(** a field whose iteration does nothing can be left out of the record *)
Lemma Loose_inert environ fields i field fieldValue :
  fields !! i = Some (field, fieldValue) ->
  Loose.iteration environ true field fieldValue = (fieldValue, None) ->
  exists fields' err,
    Loose.Parse environ (record fields) = Loose.Returns (record fields') err /\
    fields' !! i = Some (field, fieldValue) /\
    Loose.Parse environ (record (delete i fields))
      = Loose.Returns (record (delete i fields')) err.
Proof.
  intros Hi Hit.
  destruct (fieldLoop_skip (Loose.iteration environ true)
              (take i fields) (drop (S i) fields) _ _ Hit)
    as (pre' & post' & err & Hlen & H1 & H2).
  rewrite <- (fields_split _ _ _ Hi) in H1.
  assert (i < length fields)%nat as Hlt by (by eapply lookup_lt_Some).
  assert (length pre' = i) as Hpre by (rewrite Hlen, length_take; lia).
  exists (pre' ++ (field, fieldValue) :: post'), err. split_and!.
  - by rewrite Loose_Parse_record, H1.
  - rewrite lookup_app_r by lia. by rewrite Hpre, Nat.sub_diag.
  - rewrite Loose_Parse_record.
    replace (delete i fields) with (take i fields ++ drop (S i) fields)
      by (by rewrite delete_take_drop).
    rewrite H2. f_equal. f_equal.
    rewrite delete_take_drop.
    rewrite take_app_length' by done.
    by rewrite cons_middle, app_assoc, drop_app_length' by (rewrite length_app; simpl; lia).
Qed.

(** X10.  The loose revision passes over every field of a kind other than
    slice, string and int, without error: when the tag of such a field
    parses and its variable or its default gives a string, or the field is
    optional, [Parse] leaves the field as it is and binds the record
    exactly as it binds the record without that field.  The same holds of
    a field that is not exported and of a field without [env] key. *)
Theorem Loose_passed_over_field environ fields i field fieldValue :
  fields !! i = Some (field, fieldValue) ->
  IsExported field = false \/
  Lookup (Reflect.Tag field) "env" = None \/
  (converted fieldValue = false /\
   exists tag,
     Loose.parseTag (Reflect.Tag field) = (tag, true, None) /\
     (Loose.resolve environ tag <> "" \/ Loose.Optional tag = true)) ->
  exists fields' err,
    Loose.Parse environ (record fields) = Loose.Returns (record fields') err /\
    fields' !! i = Some (field, fieldValue) /\
    Loose.Parse environ (record (delete i fields))
      = Loose.Returns (record (delete i fields')) err.
Proof.
  intros Hi Hcase. apply Loose_inert; [done|].
  unfold Loose.iteration.
  destruct Hcase as [Hx|[Hl|(Hk & tag & Ht & Hr)]].
  - by rewrite Hx.
  - destruct (negb _); [done|]. unfold Loose.parseTag. by rewrite Hl.
  - destruct (negb _); [done|]. rewrite Ht.
    fold (Loose.resolve environ tag).
    assert (isEmpty (Loose.resolve environ tag) && negb (Loose.Optional tag) = false) as ->.
    { destruct Hr as [Hr| ->]; [|by rewrite andb_false_r].
      apply isEmpty_false in Hr. by rewrite Hr. }
    destruct fieldValue as [| [] | | | | | | |]; done.
Qed.

(** X11.  A variable that resolves to the empty string, unset or set to the
    empty string alike, with an empty default, makes a field that is not
    optional fail with "missing required env" and the name of the
    variable, whatever the kind of the field; when the fields before it
    bind, they keep what they were bound to and the field and the fields
    after it are untouched. *)
Theorem Loose_required_missing environ fields i field fieldValue tag :
  fields !! i = Some (field, fieldValue) ->
  IsExported field = true ->
  Loose.parseTag (Reflect.Tag field) = (tag, true, None) ->
  Loose.Optional tag = false ->
  Loose.resolve environ tag = "" ->
  (forall out, Loose.Parse environ (record fields) <> Loose.Returns out None) /\
  forall pre',
    Loose.Parse environ (record (take i fields)) = Loose.Returns (record pre') None ->
    Loose.Parse environ (record fields) =
      Loose.Returns (record (pre' ++ (field, fieldValue) :: drop (S i) fields))
        (Some (Loose.errMissingRequired (Loose.Env tag))).
Proof.
  intros Hi Hx Ht Ho Hr.
  destruct (Loose_Parse_iteration_error environ fields i field fieldValue
              (Loose.errMissingRequired (Loose.Env tag)) Hi) as (H1 & _ & H3); [|done].
  unfold Loose.iteration. rewrite Hx, Ht. cbn [andb negb].
  fold (Loose.resolve environ tag). by rewrite Hr, Ho.
Qed.

(** X12.  A struct passed by value is never written to: on an argument
    that is a struct and no pointer, [Parse] returns nil and leaves every
    field as it is, whatever the tags and the environment (no field of a
    value that is not addressable can be set). *)
Theorem Loose_struct_by_value environ fields :
  Loose.Parse environ (Some (VStruct fields)) = Loose.Returns (Some (VStruct fields)) None.
Proof.
  rewrite (Loose_Parse_struct environ (VStruct fields) fields) by done.
  cbn [Loose.addressable Loose.store].
  assert (fieldLoop (Loose.iteration environ false) fields = (fields, None)) as ->; [|done].
  induction fields as [|[f v] rest IH]; [done|].
  cbn [fieldLoop]. unfold Loose.iteration at 1. cbn [andb negb]. by rewrite IH.
Qed.

End LooseFields.

(** ** The loose revision: the empty string and the unset variable *)

Section LooseEmpty.
Import Strings Strconv Reflect Os.
Context `{Floats}.
Implicit Types (environ : Environ) (fields pre post : list (StructField * Value)).

Lemma fieldLoop_ext {Err : Type} (body body' : StructField -> Value -> Value * option Err)
    fields :
  (forall field fieldValue, body field fieldValue = body' field fieldValue) ->
  fieldLoop body fields = fieldLoop body' fields.
Proof.
  intros Hb. induction fields as [|[f v] rest IH]; [done|].
  cbn [fieldLoop]. by rewrite Hb, IH.
Qed.

(** the loose revision reads the environment through [os.Getenv] alone *)
Lemma Loose_Parse_Getenv environ1 environ2 obj :
  (forall key, Getenv environ1 key = Getenv environ2 key) ->
  Loose.Parse environ1 obj = Loose.Parse environ2 obj.
Proof.
  intros Hg. unfold Loose.Parse.
  destruct obj as [o|]; [|done].
  destruct (Loose.elemType (TypeOf o)); try done.
  destruct (Loose.elemValue o) as [[]|]; try done.
  rewrite (fieldLoop_ext (Loose.iteration environ1 (Loose.addressable o))
             (Loose.iteration environ2 (Loose.addressable o))); [done|].
  intros f v. unfold Loose.iteration. by repeat (rewrite Hg || case_match).
Qed.

(** X14.  The loose revision cannot tell a variable set to the empty string
    from an unset one: [Parse] has the same outcome, on every argument,
    whether the environment holds [name] with the empty string or does not
    hold [name] at all. *)
Theorem Loose_empty_is_unset environ name obj :
  Loose.Parse (<[name := ""]> environ) obj = Loose.Parse (delete name environ) obj.
Proof.
  apply Loose_Parse_Getenv. intros key. unfold Getenv.
  destruct (decide (name = key)) as [->|Hne].
  - by rewrite lookup_insert_eq, lookup_delete_eq.
  - by rewrite lookup_insert_ne, lookup_delete_ne.
Qed.
End LooseEmpty.

(** ** The tags the strict revision accepts *)

Section StrictTags.
Import Strings Strconv Reflect Options.

Lemma contains_sliceFrom n s c : contains s c = false -> contains (sliceFrom n s) c = false.
Proof.
  revert s. induction n as [|n IH]; intros s Hs; [done|].
  destruct s as [|c' s]; [done|]. simpl in *.
  apply orb_false_iff in Hs as [_ Hs]. by apply IH.
Qed.

Lemma validOption_cases part :
  Strict.validOption part = true ->
  part = "optional" \/
  (part =? "optional")%string = false /\ (part =? "default")%string = false /\
  HasPrefix part "default=" = true /\ (len part <=? 8) = false.
Proof.
  unfold Strict.validOption. intros Hv.
  destruct (part =? "optional")%string eqn:E1; [left; by apply String.eqb_eq|].
  right. cbn [orb] in Hv. apply andb_true_iff in Hv as [Hp Hl].
  split_and!; try done.
  - destruct (part =? "default")%string eqn:E2; [|done].
    apply String.eqb_eq in E2. by subst.
  - apply Z.ltb_lt in Hl. apply Z.leb_gt. lia.
Qed.

(** the loop over valid options: [optional] once it occurs, and the literal
    of the last [default=] *)
Lemma Strict_parseOptions_valid options result :
  Forall (fun part => Strict.validOption part = true) options ->
  Strict.parseOptions options result =
    (Strict.mkTag (Strict.Env result)
       (Strict.Optional result || bool_decide ("optional" ∈ options))
       (match last (List.filter isDefault options) with
        | Some part => sliceFrom 8 part
        | None => Strict.Default result
        end),
     true, None).
Proof.
  intros Hall. revert result.
  induction Hall as [|part options Hp Hall IH]; intros result.
  - cbn. rewrite orb_false_r. by destruct result.
  - cbn [Strict.parseOptions List.filter].
    destruct (validOption_cases part Hp) as [->|(E1 & E2 & E3 & E4)].
    + change (("optional" =? "optional")%string) with true. cbv iota.
      rewrite IH. cbn [Strict.Env Strict.Optional Strict.Default].
      change (isDefault "optional") with false. cbv iota.
      rewrite (bool_decide_eq_true_2 ("optional" ∈ "optional" :: options)) by (by left).
      by rewrite orb_true_r.
    + rewrite E1, E2, E3, E4, IH. cbn [Strict.Env Strict.Optional Strict.Default].
      change (isDefault part) with (HasPrefix part "default="). rewrite E3.
      f_equal. f_equal. f_equal.
      * f_equal. apply bool_decide_ext. rewrite elem_of_cons.
        apply String.eqb_neq in E1. split; [by right|]. by intros [?|?].
      * rewrite last_cons. by destruct (last _).
Qed.

(** an accepted tag has an [env] key, a name and valid options *)
Lemma Strict_parseTag_inv (tag : StructTag) result :
  Strict.parseTag tag = (result, true, None) ->
  exists raw name options,
    Lookup tag "env" = Some raw /\
    Split raw "," = name :: options /\
    name <> "" /\
    Forall (fun part => Strict.validOption part = true) options.
Proof.
  unfold Strict.parseTag. intros Hp.
  destruct (Lookup tag "env") as [raw|]; [|done].
  destruct (isEmpty raw); [done|].
  destruct (Split_cons raw ",") as (name & options & Hs). rewrite Hs in Hp.
  destruct (isEmpty name) eqn:Hn; [done|]. apply isEmpty_false in Hn.
  exists raw, name, options. split_and!; try done.
  apply Forall_forall. intros part Hin.
  destruct (Strict.validOption part) eqn:Hv; [done|].
  destruct (parseOptions_invalid options part (Strict.mkTag name false "") Hin Hv)
    as (err & Herr & _).
  by rewrite Herr in Hp.
Qed.

(** the result of [parseTag] on a tag with a name and valid options *)
Lemma Strict_parseTag_valid (tag : StructTag) raw name options :
  Lookup tag "env" = Some raw ->
  Split raw "," = name :: options ->
  name <> "" ->
  Forall (fun part => Strict.validOption part = true) options ->
  Strict.parseTag tag =
    (Strict.mkTag name (bool_decide ("optional" ∈ options))
       (match last (List.filter isDefault options) with
        | Some part => sliceFrom 8 part
        | None => ""
        end),
     true, None).
Proof.
  intros Hl Hs Hn Hall. unfold Strict.parseTag.
  rewrite Hl, Hs. apply isEmpty_false in Hn as Hn'. rewrite Hn'.
  assert (isEmpty raw = false) as ->.
  { destruct raw; [|done]. simpl in Hs. by simplify_eq. }
  by rewrite (Strict_parseOptions_valid _ _ Hall).
Qed.

(** X15.  [parseTag] of the strict revision accepts exactly the tags with
    an [env] key whose name is not empty and whose options are all valid,
    each [optional] or [default=] followed by a literal that is not
    empty. *)
Theorem Strict_parseTag_accepts (tag : StructTag) :
  (exists result, Strict.parseTag tag = (result, true, None)) <->
  exists raw name options,
    Lookup tag "env" = Some raw /\
    Split raw "," = name :: options /\
    name <> "" /\
    Forall (fun part => Strict.validOption part = true) options.
Proof.
  split.
  - intros [result Hp]. by apply Strict_parseTag_inv in Hp.
  - intros (raw & name & options & Hl & Hs & Hn & Hall).
    rewrite (Strict_parseTag_valid _ _ _ _ Hl Hs Hn Hall). eauto.
Qed.

(** X16.  What an accepted tag parses to, in the strict revision: the name
    is the text before the first comma, not empty and without comma;
    [Optional] holds exactly when [optional] is among the options; the
    default is the literal of the last [default=] option, the empty string
    when there is none, and holds no comma. *)
Theorem Strict_parseTag_result (tag : StructTag) raw name options result :
  Lookup tag "env" = Some raw ->
  Split raw "," = name :: options ->
  Strict.parseTag tag = (result, true, None) ->
  Strict.Env result = name /\ name <> "" /\ contains name "," = false /\
  (Strict.Optional result = true <-> "optional" ∈ options) /\
  Strict.Default result =
    match last (List.filter isDefault options) with
    | Some part => sliceFrom 8 part
    | None => ""
    end /\
  contains (Strict.Default result) "," = false.
Proof.
  intros Hl Hs Hp.
  destruct (Strict_parseTag_inv _ _ Hp) as (raw' & name' & options' & Hl' & Hs' & Hn & Hall).
  rewrite Hl in Hl'. injection Hl' as <-. rewrite Hs in Hs'. injection Hs' as <- <-.
  rewrite (Strict_parseTag_valid _ _ _ _ Hl Hs Hn Hall) in Hp. simplify_eq.
  cbn [Strict.Env Strict.Optional Strict.Default].
  pose proof (Split_no_sep raw ",") as Hsep. rewrite Hs in Hsep.
  apply Forall_cons in Hsep as [Hname Hopts].
  split_and!; try done.
  - apply bool_decide_eq_true.
  - destruct (last (List.filter isDefault options)) as [part|] eqn:El; [|done].
    apply contains_sliceFrom.
    apply last_Some_elem_of in El. apply list_elem_of_In, filter_In in El as [Hin _].
    rewrite Forall_forall in Hopts. apply Hopts. by apply list_elem_of_In.
Qed.
End StrictTags.

(** ** The tags the loose revision accepts *)

Section LooseTags.
Import Strings Strconv Reflect Options.

Lemma Cut_None s sep : (Cut s sep).2 = None <-> contains s sep = false.
Proof.
  induction s as [|c s IH]; [done|]. cbn [Cut contains].
  destruct (Ascii.eqb c sep); [done|]. cbn [orb].
  destruct (Cut s sep) as [before after]. simpl in *. done.
Qed.

Lemma Cut_contains_after s sep c before after :
  Cut s sep = (before, Some after) -> contains s c = false -> contains after c = false.
Proof.
  revert before. induction s as [|c' s IH]; intros before Hc Hs; [done|].
  cbn [Cut contains] in *. apply orb_false_iff in Hs as [_ Hs].
  destruct (Ascii.eqb c' sep); [by simplify_eq|].
  destruct (Cut s sep) as [b a]. simplify_eq. by eapply IH.
Qed.

Lemma SplitN_two s sep :
  SplitN s sep 2 =
    match Cut s sep with
    | (before, None) => [before]
    | (before, Some after) => [before; after]
    end.
Proof.
  unfold SplitN. change (2 <? 0) with false. change (Z.to_nat 2) with 2%nat.
  cbn [splitN]. by destruct (Cut s sep) as [before [after|]].
Qed.

(** one step of the loop of [Loose.parseTag] *)
Lemma Loose_parseOptions_cons value parts opt def :
  Loose.parseOptions (value :: parts) opt def =
    if (value =? "optional")%string then Loose.parseOptions parts true def
    else if HasPrefix value "default" then
      match (Cut value "=").2 with
      | Some literal => Loose.parseOptions parts opt literal
      | None => inr (Loose.errInvalidDefault value)
      end
    else Loose.parseOptions parts opt def.
Proof.
  cbn [Loose.parseOptions]. rewrite SplitN_two.
  by destruct (Cut value "=") as [before [after|]].
Qed.

(** the options the loop of [Loose.parseTag] stops at: they start with
    [default] and hold no [=] *)
Lemma Loose_parseOptions_result parts opt def :
  Forall (fun part => HasPrefix part "default" && negb (contains part "=") = false) parts ->
  Loose.parseOptions parts opt def =
    inl (opt || bool_decide ("optional" ∈ parts),
         match last (List.filter (fun part => HasPrefix part "default") parts) with
         | Some part => default "" (Cut part "=").2
         | None => def
         end).
Proof.
  intros Hall. revert opt def.
  induction Hall as [|part parts Hp Hall IH]; intros opt def.
  - cbn. by rewrite orb_false_r.
  - rewrite Loose_parseOptions_cons. cbn [List.filter].
    destruct (part =? "optional")%string eqn:E1.
    + apply String.eqb_eq in E1 as ->. rewrite IH.
      change (HasPrefix "optional" "default") with false. cbv iota.
      rewrite (bool_decide_eq_true_2 ("optional" ∈ "optional" :: parts)) by (by left).
      by rewrite orb_true_r.
    + assert (bool_decide ("optional" ∈ part :: parts) = bool_decide ("optional" ∈ parts)) as ->.
      { apply bool_decide_ext. rewrite elem_of_cons.
        apply String.eqb_neq in E1. split; [by intros [?|?]|by right]. }
      destruct (HasPrefix part "default") eqn:E2.
      * cbn [andb] in Hp. apply negb_false_iff in Hp.
        destruct (Cut part "=").2 as [literal|] eqn:Ec.
        -- rewrite IH, last_cons. destruct (last _); by rewrite ?Ec.
        -- apply Cut_None in Ec. congruence.
      * by rewrite IH.
Qed.

Lemma Loose_parseOptions_invalid parts part opt def :
  part ∈ parts ->
  HasPrefix part "default" && negb (contains part "=") = true ->
  exists value, Loose.parseOptions parts opt def = inr (Loose.errInvalidDefault value).
Proof.
  intros Hin Hp. revert opt def.
  induction parts as [|p parts IH]; intros opt def; [by apply elem_of_nil in Hin|].
  rewrite Loose_parseOptions_cons.
  apply elem_of_cons in Hin as [<-|Hin].
  - apply andb_true_iff in Hp as [Hp1 Hp2]. apply negb_true_iff, Cut_None in Hp2.
    destruct (part =? "optional")%string eqn:E1.
    { apply String.eqb_eq in E1. by subst. }
    rewrite Hp1, Hp2. eauto.
  - destruct (p =? "optional")%string; [by apply IH|].
    destruct (HasPrefix p "default"); [|by apply IH].
    destruct (Cut p "=").2; [by apply IH|eauto].
Qed.

(** an accepted tag has an [env] key, a name and no option that starts
    with [default] without [=] *)
Lemma Loose_parseTag_inv (tag : StructTag) result :
  Loose.parseTag tag = (result, true, None) ->
  exists raw name options,
    Lookup tag "env" = Some raw /\
    Split raw "," = name :: options /\
    name <> "" /\
    Forall (fun part => HasPrefix part "default" && negb (contains part "=") = false) options.
Proof.
  unfold Loose.parseTag. intros Hp.
  destruct (Lookup tag "env") as [raw|]; [|done].
  destruct (Split_cons raw ",") as (name & options & Hs). rewrite Hs in Hp.
  destruct (isEmpty name) eqn:Hn; [done|]. apply isEmpty_false in Hn.
  exists raw, name, options. split_and!; try done.
  apply Forall_forall. intros part Hin.
  destruct (HasPrefix part "default" && negb (contains part "=")) eqn:Hv; [|done].
  destruct (Loose_parseOptions_invalid options part false "" Hin Hv) as (value & Herr).
  by rewrite Herr in Hp.
Qed.

Lemma Loose_parseTag_valid (tag : StructTag) raw name options :
  Lookup tag "env" = Some raw ->
  Split raw "," = name :: options ->
  name <> "" ->
  Forall (fun part => HasPrefix part "default" && negb (contains part "=") = false) options ->
  Loose.parseTag tag =
    (Loose.mkTag name (bool_decide ("optional" ∈ options))
       (match last (List.filter (fun part => HasPrefix part "default") options) with
        | Some part => default "" (Cut part "=").2
        | None => ""
        end),
     true, None).
Proof.
  intros Hl Hs Hn Hall. unfold Loose.parseTag.
  rewrite Hl, Hs. apply isEmpty_false in Hn as Hn'. rewrite Hn'.
  by rewrite (Loose_parseOptions_result _ _ _ Hall).
Qed.

(** X17.  [parseTag] of the loose revision accepts every tag with an [env]
    key and a name that is not empty, except those with an option that
    starts with [default] and holds no [=]: every other option, known or
    not, is let through. *)
Theorem Loose_parseTag_accepts (tag : StructTag) :
  (exists result, Loose.parseTag tag = (result, true, None)) <->
  exists raw name options,
    Lookup tag "env" = Some raw /\
    Split raw "," = name :: options /\
    name <> "" /\
    Forall (fun part => HasPrefix part "default" && negb (contains part "=") = false) options.
Proof.
  split.
  - intros [result Hp]. by apply Loose_parseTag_inv in Hp.
  - intros (raw & name & options & Hl & Hs & Hn & Hall).
    rewrite (Loose_parseTag_valid _ _ _ _ Hl Hs Hn Hall). eauto.
Qed.

(** X18.  What an accepted tag parses to, in the loose revision: the name
    is the text before the first comma, not empty and without comma;
    [Optional] holds exactly when [optional] is among the options; the
    default is the text after the first [=] of the last option that starts
    with [default] (whatever stands between [default] and [=]), the empty
    string when there is none, and holds no comma. *)
Theorem Loose_parseTag_result (tag : StructTag) raw name options result :
  Lookup tag "env" = Some raw ->
  Split raw "," = name :: options ->
  Loose.parseTag tag = (result, true, None) ->
  Loose.Env result = name /\ name <> "" /\ contains name "," = false /\
  (Loose.Optional result = true <-> "optional" ∈ options) /\
  Loose.Default result =
    match last (List.filter (fun part => HasPrefix part "default") options) with
    | Some part => default "" (Cut part "=").2
    | None => ""
    end /\
  contains (Loose.Default result) "," = false.
Proof.
  intros Hl Hs Hp.
  destruct (Loose_parseTag_inv _ _ Hp) as (raw' & name' & options' & Hl' & Hs' & Hn & Hall).
  rewrite Hl in Hl'. injection Hl' as <-. rewrite Hs in Hs'. injection Hs' as <- <-.
  rewrite (Loose_parseTag_valid _ _ _ _ Hl Hs Hn Hall) in Hp. simplify_eq.
  cbn [Loose.Env Loose.Optional Loose.Default].
  pose proof (Split_no_sep raw ",") as Hsep. rewrite Hs in Hsep.
  apply Forall_cons in Hsep as [Hname Hopts].
  split_and!; try done.
  - apply bool_decide_eq_true.
  - destruct (last (List.filter _ options)) as [part|] eqn:El; [|done].
    apply last_Some_elem_of in El. apply list_elem_of_In, filter_In in El as [Hin _].
    rewrite Forall_forall in Hopts. apply list_elem_of_In, Hopts in Hin.
    destruct (Cut part "=") as [before [after|]] eqn:Ec; [|done].
    by apply (Cut_contains_after _ _ _ _ _ Ec).
Qed.
End LooseTags.

(** ** Conversions *)

Section Conversions.
Import Strings Strconv Reflect Os.
Context `{Floats}.
Implicit Types (environ : Environ) (fields pre post : list (StructField * Value)).

Lemma digit_range c d : digit c = Some d -> 0 <= d <= 9.
Proof.
  unfold digit. intros Hd. case_match; simplify_eq.
  apply andb_true_iff in H0 as [H1 H2]. lia.
Qed.

Lemma parseUintLoop_nonneg s n maxVal un :
  0 <= n -> parseUintLoop s n maxVal = inl un -> 0 <= un.
Proof.
  revert n. induction s as [|c s IH]; intros n Hn Hp; cbn [parseUintLoop] in Hp.
  - by simplify_eq.
  - destruct (digit c) as [d|] eqn:Hd; [|done]. apply digit_range in Hd.
    destruct (_ <=? n); [done|]. destruct (maxVal <? _); [done|].
    apply IH in Hp; [done|lia].
Qed.

(** an integer [strconv.ParseInt] returns for 64 bits is an [int64] *)
Lemma parseInt_range fn s n :
  parseInt fn s 64 = inl n -> - 2 ^ 63 <= n < 2 ^ 63.
Proof.
  unfold parseInt. destruct s as [|c0 s1]; [done|]. cbv zeta.
  match goal with |- context [ParseUint ?d 64] => set (digits := d) end.
  destruct (ParseUint digits 64) as [un|e] eqn:Hu; [|by destruct e].
  assert (0 <= un) as Hun.
  { unfold ParseUint in Hu. destruct digits; [done|].
    change (if 64 =? 0 then IntSize else 64) with 64 in Hu.
    change ((64 <? 0) || (64 <? 64)) with false in Hu. cbv iota in Hu.
    by apply parseUintLoop_nonneg in Hu. }
  change (if 64 =? 0 then IntSize else 64) with 64.
  change (2 ^ (64 - 1)) with (2 ^ 63).
  destruct (Ascii.eqb c0 "-"); cbn [negb andb].
  - destruct (2 ^ 63 <? un) eqn:E; [done|]. apply Z.ltb_ge in E. intros; simplify_eq. lia.
  - destruct (2 ^ 63 <=? un) eqn:E; [done|]. apply Z.leb_gt in E. intros; simplify_eq. lia.
Qed.

Lemma bits_pos k : 8 <= bits k <= 64.
Proof. destruct k; unfold bits, IntSize; lia. Qed.

Lemma wrap_range w x : 0 < w -> - 2 ^ (w - 1) <= wrap w x < 2 ^ (w - 1).
Proof.
  intros Hw. unfold wrap.
  assert (2 ^ w = 2 * 2 ^ (w - 1)) as Hp.
  { replace w with (Z.succ (w - 1)) at 1 by lia. rewrite Z.pow_succ_r by lia. done. }
  assert (0 < 2 ^ (w - 1)) by (apply Z.pow_pos_nonneg; lia).
  pose proof (Z.mod_pos_bound (x + 2 ^ (w - 1)) (2 ^ w)). lia.
Qed.

Lemma wrap_small w x : 0 < w -> - 2 ^ (w - 1) <= x < 2 ^ (w - 1) -> wrap w x = x.
Proof.
  intros Hw Hx. unfold wrap.
  assert (2 ^ w = 2 * 2 ^ (w - 1)) as Hp.
  { replace w with (Z.succ (w - 1)) at 1 by lia. rewrite Z.pow_succ_r by lia. done. }
  rewrite Z.mod_small by lia. lia.
Qed.

Lemma wrap_congruent w x : 0 < w -> (wrap w x - x) mod 2 ^ w = 0.
Proof.
  intros Hw. unfold wrap.
  assert (0 < 2 ^ w) by (apply Z.pow_pos_nonneg; lia).
  rewrite (Z.mod_eq (x + 2 ^ (w - 1)) (2 ^ w)) by lia.
  replace (x + 2 ^ (w - 1) - 2 ^ w * ((x + 2 ^ (w - 1)) / 2 ^ w) - 2 ^ (w - 1) - x)
    with (- ((x + 2 ^ (w - 1)) / 2 ^ w) * 2 ^ w) by lia.
  apply Z.mod_mul. lia.
Qed.

(** X19.  An integer field of the strict revision is parsed as an [int64]
    and stored without a check of its own width: the text of an integer
    gives an [int64] [n], the field then holds a value [m] of its width
    that equals [n] modulo [2^width]; it is [n] itself when [n] fits the
    width, always so for [int] and [int64], and otherwise [n] wrapped
    around, with no error. *)
Theorem Strict_int_field (k : intKind) (old : Z) (value : string) (n : Z) :
  ParseInt value 64 = inl n ->
  - 2 ^ 63 <= n < 2 ^ 63 /\
  exists m,
    Strict.setField true (VInt k old) value = (VInt k m, None) /\
    - 2 ^ (bits k - 1) <= m < 2 ^ (bits k - 1) /\
    (m - n) mod 2 ^ bits k = 0 /\
    (- 2 ^ (bits k - 1) <= n < 2 ^ (bits k - 1) -> m = n) /\
    (bits k = 64 -> m = n).
Proof.
  intros Hp. pose proof (parseInt_range _ _ _ Hp) as Hn.
  pose proof (bits_pos k) as Hk.
  split; [done|]. exists (wrap (bits k) n).
  unfold Strict.setField. cbn [negb]. rewrite Hp.
  split; [done|]. split; [apply wrap_range; lia|].
  split; [apply wrap_congruent; lia|].
  split; [apply wrap_small; lia|].
  intros Hb. apply wrap_small; [lia|]. by rewrite Hb.
Qed.

(** X20.  An [int] field of the loose revision that [Parse] binds holds
    the integer its resolved string denotes, an [int64], stored as it is;
    a resolved string that is no integer makes [Parse] return an error. *)
Theorem Loose_int_field environ fields fields' i field old tag :
  fields !! i = Some (field, VInt Int old) ->
  IsExported field = true ->
  Loose.parseTag (Reflect.Tag field) = (tag, true, None) ->
  Loose.Parse environ (record fields) = Loose.Returns (record fields') None ->
  exists n,
    ParseInt (Loose.resolve environ tag) 64 = inl n /\
    - 2 ^ 63 <= n < 2 ^ 63 /\
    fields' !! i = Some (field, VInt Int n).
Proof.
  intros Hi Hx Ht HP.
  apply Loose_Parse_record_inv in HP as (fs & Hfs & Hloop).
  apply record_inj in Hfs as <-.
  destruct (fieldLoop_ok_lookup _ _ _ _ _ _ Hloop Hi) as (v' & Hit & Hi').
  unfold Loose.iteration in Hit. rewrite Hx, Ht in Hit. cbn [andb negb] in Hit.
  fold (Loose.resolve environ tag) in Hit.
  destruct (_ && negb (Loose.Optional tag)); [done|].
  destruct (ParseInt (Loose.resolve environ tag) 64) as [n|e] eqn:Hp; [|done].
  pose proof (parseInt_range _ _ _ Hp) as Hn.
  exists n. split_and!; try done; try lia.
  simplify_eq. rewrite Hi'. unfold SetInt, bits, IntSize.
  rewrite wrap_small; [done|lia|]. by change (64 - 1) with 63.
Qed.

Lemma Split_no_sep_single s sep : contains s sep = false -> Split s sep = [s].
Proof.
  induction s as [|c s IH]; [done|]. cbn [contains Split].
  intros Hc. apply orb_false_iff in Hc as [Hc Hs]. by rewrite Hc, IH.
Qed.

Lemma Split_append s sep rest :
  contains s sep = false ->
  Split (s +:+ String sep rest) sep = s :: Split rest sep.
Proof.
  induction s as [|c s IH]; intros Hc.
  - change ("" +:+ String sep rest) with (String sep rest).
    cbn [Split]. by rewrite Ascii.eqb_refl.
  - cbn [contains] in Hc. apply orb_false_iff in Hc as [Hc Hs].
    change (String c s +:+ String sep rest) with (String c (s +:+ String sep rest)).
    cbn [Split]. by rewrite Hc, IH.
Qed.

(** joining strings without separator and splitting gives them back *)
Lemma Split_Join xs sep :
  xs <> [] ->
  Forall (fun x => contains x sep = false) xs ->
  Split (Join xs sep) sep = xs.
Proof.
  intros Hne Hall. induction Hall as [|x xs Hx Hall IH]; [done|].
  destruct xs as [|y ys].
  - by apply Split_no_sep_single.
  - rewrite Join_cons_cons, Split_append by done. f_equal. by apply IH.
Qed.

Lemma Join_empty xs sep : Join xs sep = "" <-> xs = [] \/ xs = [""].
Proof.
  destruct xs as [|x [|y ys]].
  - split; [by left|done].
  - cbn [Join]. split; [intros ->; by right|]. by intros [?|?]; simplify_eq.
  - rewrite Join_cons_cons. split; [|by intros [?|?]].
    intros He. destruct x; discriminate He.
Qed.

(** X21.  The round trip of a list of strings through a variable.  Let no
    element of [xs] hold a comma.  In the strict revision the commas of
    [xs] joined give back [xs], unless [xs] is the list of one empty
    string, which cannot be told from the empty list and comes back empty;
    in the loose revision they give back [xs] unless [xs] is empty, which
    comes back as one empty string. *)
Theorem string_slice_round_trip (xs : list string) :
  Forall (fun x => contains x "," = false) xs ->
  (xs <> [""] -> Strict.parseSlice (Join xs ",") TString = inl (stringSlice xs)) /\
  Strict.parseSlice (Join [""] ",") TString = inl (stringSlice []) /\
  (xs <> [] -> Loose.parseSlice (Join xs ",") TString = inl (stringSlice xs)) /\
  Loose.parseSlice (Join [] ",") TString = inl (stringSlice [""]).
Proof.
  intros Hall. split_and!; try done.
  - intros Hne. unfold Strict.parseSlice.
    destruct (isEmpty (Join xs ",")) eqn:He.
    + apply isEmpty_true, Join_empty in He. by destruct He as [Hx|Hx]; subst xs.
    + rewrite Split_Join; [done| |done]. intros ->. done.
  - intros Hne. unfold Loose.parseSlice. by rewrite Split_Join.
Qed.

Lemma Strict_parseInts_Forall2 elements ns :
  Strict.parseInts elements = inl ns <->
  Forall2 (fun el n => Atoi el = inl n) elements ns.
Proof.
  revert ns. induction elements as [|el elements IH]; intros ns.
  - cbn. split; [intros; simplify_eq; constructor|by inversion 1].
  - cbn [Strict.parseInts]. split.
    + destruct (Atoi el) as [n|e] eqn:Hel; [|done].
      destruct (Strict.parseInts elements) as [ns'|e] eqn:Hp; [|done].
      intros; simplify_eq. constructor; [done|]. by apply IH.
    + inversion 1 as [|? n ? ns' Hel Hrest]; subst. rewrite Hel.
      apply IH in Hrest. by rewrite Hrest.
Qed.

Lemma Loose_parseInts_Forall2 values ns :
  Loose.parseInts values = inl ns <->
  Forall2 (fun v n => Atoi v = inl n) values ns.
Proof.
  revert ns. induction values as [|v values IH]; intros ns.
  - cbn. split; [intros; simplify_eq; constructor|by inversion 1].
  - cbn [Loose.parseInts]. split.
    + destruct (Atoi v) as [n|e] eqn:Hv; [|done].
      destruct (Loose.parseInts values) as [ns'|e] eqn:Hp; [|done].
      intros; simplify_eq. constructor; [done|]. by apply IH.
    + inversion 1 as [|? n ? ns' Hv Hrest]; subst. rewrite Hv.
      apply IH in Hrest. by rewrite Hrest.
Qed.

(** X22.  A slice of [int] is all or nothing, in both revisions:
    [parseSlice] returns a slice exactly when every element between the
    commas is an integer for [strconv.Atoi], and the slice then holds
    those integers in order, one per element.  The strict revision takes
    the empty string to have no element; the loose revision takes it to
    have one, the empty string, and so never returns a slice for it. *)
Theorem int_slice_all_or_nothing (value : string) (sliceValue : Value) :
  (Strict.parseSlice value (TInt Int) = inl sliceValue <->
   exists ns,
     Forall2 (fun el n => Atoi el = inl n)
       (if isEmpty value then [] else Split value ",") ns /\
     sliceValue = intSlice ns) /\
  (Loose.parseSlice value (TInt Int) = inl sliceValue <->
   exists ns,
     Forall2 (fun el n => Atoi el = inl n) (Split value ",") ns /\
     sliceValue = intSlice ns) /\
  Loose.parseSlice "" (TInt Int)
    = inr (Loose.errParsingIntSlice (mkNumError "Atoi" "" ErrSyntax)).
Proof.
  split_and!; [| |done].
  - unfold Strict.parseSlice. destruct (isEmpty value).
    + split.
      * intros; simplify_eq. exists []. split; [constructor|done].
      * intros (ns & Hall & ->). by inversion Hall.
    + destruct (Strict.parseInts (Split value ",")) as [ns|e] eqn:Hp.
      * split.
        -- intros; simplify_eq. apply Strict_parseInts_Forall2 in Hp. eauto.
        -- intros (ns' & Hall & ->). apply Strict_parseInts_Forall2 in Hall.
           rewrite Hp in Hall. by simplify_eq.
      * split; [done|]. intros (ns' & Hall & ->).
        apply Strict_parseInts_Forall2 in Hall. by rewrite Hall in Hp.
  - unfold Loose.parseSlice.
    destruct (Loose.parseInts (Split value ",")) as [ns|e] eqn:Hp.
    + split.
      * intros; simplify_eq. apply Loose_parseInts_Forall2 in Hp. eauto.
      * intros (ns' & Hall & ->). apply Loose_parseInts_Forall2 in Hall.
        rewrite Hp in Hall. by simplify_eq.
    + split; [done|]. intros (ns' & Hall & ->).
      apply Loose_parseInts_Forall2 in Hall. by rewrite Hall in Hp.
Qed.
End Conversions.

(** ** The first revision *)

Section EarlyRevision.
Import Strings Strconv Reflect Os.
Context `{Floats}.
Implicit Types (environ : Environ) (fields pre post : list (StructField * Value)).

Lemma Early_parseOptions_optional options optional :
  Early.parseOptions options optional = optional || bool_decide ("optional" ∈ options).
Proof.
  revert optional. induction options as [|value options IH]; intros optional.
  - cbn. by rewrite orb_false_r.
  - cbn [Early.parseOptions]. destruct (value =? "optional")%string eqn:E.
    + apply String.eqb_eq in E as ->. rewrite IH.
      rewrite (bool_decide_eq_true_2 ("optional" ∈ "optional" :: options)) by (by left).
      by rewrite orb_true_r.
    + rewrite IH. f_equal. apply bool_decide_ext. rewrite elem_of_cons.
      apply String.eqb_neq in E. split; [by right|by intros [?|?]].
Qed.

(** the result of [Early.parseTag] on a tag with an [env] key *)
Lemma Early_parseTag_key (tag : StructTag) raw :
  Lookup tag "env" = Some raw ->
  exists name options,
    Split raw "," = name :: options /\
    Early.parseTag tag
      = (Early.mkTag name (bool_decide ("optional" ∈ options)), true, None).
Proof.
  intros Hl. destruct (Split_cons raw ",") as (name & options & Hs).
  exists name, options. split; [done|].
  unfold Early.parseTag. by rewrite Hl, Hs, Early_parseOptions_optional.
Qed.

Lemma Early_parseTag_no_error (tag : StructTag) : (Early.parseTag tag).2 = None.
Proof.
  destruct (Lookup tag "env") as [raw|] eqn:Hl.
  - destruct (Early_parseTag_key tag raw Hl) as (name & options & Hs & Hp). by rewrite Hp.
  - unfold Early.parseTag. by rewrite Hl.
Qed.

(** X23.  [parseTag] of the first revision never returns its "empty tag"
    error: [strings.Split] returns at least one part, so every tag with an
    [env] key is accepted, the empty tag and the tag with an empty name
    included.  The name is the text before the first comma, and [Optional]
    holds exactly when [optional] is among the options. *)
Theorem Early_parseTag_never_fails (tag : StructTag) :
  (Early.parseTag tag).2 = None /\
  match Lookup tag "env" with
  | None => Early.parseTag tag = (Early.zeroTag, false, None)
  | Some raw =>
      exists name options,
        Split raw "," = name :: options /\
        Early.parseTag tag
          = (Early.mkTag name (bool_decide ("optional" ∈ options)), true, None)
  end.
Proof.
  destruct (Lookup tag "env") as [raw|] eqn:Hl.
  - destruct (Early_parseTag_key tag raw Hl) as (name & options & Hs & Hp).
    rewrite Hp. split; [done|]. eauto.
  - unfold Early.parseTag. by rewrite Hl.
Qed.

(** an error of the loop is the error of an iteration on one of the
    fields *)
Lemma fieldLoop_error_source {Err : Type}
    (body : StructField -> Value -> Value * option Err) fields fields' err :
  fieldLoop body fields = (fields', Some err) ->
  exists field fieldValue, (field, fieldValue) ∈ fields /\ (body field fieldValue).2 = Some err.
Proof.
  revert fields'. induction fields as [|[f v] rest IH]; intros fields' Hl; [done|].
  cbn [fieldLoop] in Hl. destruct (body f v) as [v' [e|]] eqn:Eb.
  - simplify_eq. exists f, v. split; [by left|]. by rewrite Eb.
  - destruct (fieldLoop body rest) as [rest' e] eqn:Er. simplify_eq.
    destruct (IH _ eq_refl) as (f' & v'' & Hin & Hb). exists f', v''. split; [by right|done].
Qed.

(** the outcome of [Early.Parse] on a pointer to a struct *)
Lemma Early_Parse_record environ fields :
  Early.Parse environ (record fields) =
    match fieldLoop (Early.iteration environ true) fields with
    | (fields', Some (Early.Return err)) => Early.Returns (record fields') (Some err)
    | (_, Some Early.Panic) => Early.Panics
    | (fields', None) => Early.Returns (record fields') None
    end.
Proof. reflexivity. Qed.

(** X24.  [Parse] of the first revision reports nothing but a missing
    variable: every error it returns is "missing required env" with the
    name of a variable that is unset or empty.  A text that is no integer
    is no error. *)
Theorem Early_Parse_errors environ obj out err :
  Early.Parse environ obj = Early.Returns out (Some err) ->
  exists name, err = Early.errMissingRequired name /\ Getenv environ name = "".
Proof.
  unfold Early.Parse. intros HP.
  destruct obj as [o|]; [|done].
  destruct (Loose.elemType (TypeOf o)); try done.
  destruct (Loose.elemValue o) as [[]|]; try done; [|by destruct fields].
  destruct (fieldLoop _ fields0) as [fields' [[e|]|]] eqn:El; simplify_eq.
  destruct (fieldLoop_error_source _ _ _ _ El) as (f & v & _ & Hb).
  unfold Early.iteration in Hb.
  destruct (negb _); [done|].
  pose proof (Early_parseTag_no_error (Reflect.Tag f)) as Hnone.
  destruct (Early.parseTag (Reflect.Tag f)) as [[tag ok] oe]. simpl in Hnone. subst oe.
  destruct ok; [|done].
  destruct (negb (Early.Optional tag) && isEmpty (Getenv environ (Early.Env tag))) eqn:Hm.
  - simpl in Hb. simplify_eq. apply andb_true_iff in Hm as [_ Hm].
    apply isEmpty_true in Hm. eauto.
  - repeat case_match; by simplify_eq.
Qed.



(** X26.  The first revision assigns a [[]string] to every slice field: on
    a slice field of another element type, [[]int] included, [Parse]
    panics as soon as it reaches the field with a value to convert (the
    fields before bind, the tag has an [env] key, and the variable is not
    empty or the field is optional). *)
Theorem Early_slice_panics environ pre pre' post field elem xs tag :
  Early.Parse environ (record pre) = Early.Returns (record pre') None ->
  IsExported field = true ->
  Early.parseTag (Reflect.Tag field) = (tag, true, None) ->
  Early.Optional tag = true \/ Getenv environ (Early.Env tag) <> "" ->
  elem <> TString ->
  Early.Parse environ (record (pre ++ (field, VSlice elem xs) :: post)) = Early.Panics.
Proof.
  intros HP Hx Ht Hv He. rewrite Early_Parse_record in HP.
  destruct (fieldLoop _ pre) as [fs [[e|]|]] eqn:Hloop; try done.
  rewrite Early_Parse_record.
  rewrite (fieldLoop_stop _ pre fs post field (VSlice elem xs) (VSlice elem xs) Early.Panic);
    [done|done|].
  unfold Early.iteration. rewrite Hx, Ht. cbn [andb negb].
  assert (negb (Early.Optional tag) && isEmpty (Getenv environ (Early.Env tag)) = false) as ->.
  { destruct Hv as [->|Hv]; [done|]. apply isEmpty_false in Hv. by rewrite Hv, andb_false_r. }
  by destruct elem.
Qed.
End EarlyRevision.

(** ** The errors a call reports *)

Section ReportedErrors.
Import Strings Strconv Reflect Os Descent Reports.
Context `{Floats}.
Implicit Types (environ : Environ) (fields pre post : list (StructField * Value)).

Lemma Strict_parseOptions_malformed parts result tag ok err :
  Strict.parseOptions parts result = (tag, ok, Some err) -> Strict.malformed err = true.
Proof.
  revert result. induction parts as [|part parts IH]; intros result; [done|].
  cbn [Strict.parseOptions]. repeat case_match; intros; simplify_eq; try done; by eapply IH.
Qed.

Lemma Strict_parseTag_malformed (tag : StructTag) result ok err :
  Strict.parseTag tag = (result, ok, Some err) -> Strict.malformed err = true.
Proof.
  unfold Strict.parseTag. repeat case_match; intros; simplify_eq; try done.
  by eapply Strict_parseOptions_malformed.
Qed.

Lemma Strict_parseInts_conversion elements err :
  Strict.parseInts elements = inr err -> conversion err = true.
Proof.
  induction elements as [|el elements IH]; [done|].
  cbn [Strict.parseInts]. repeat case_match; intros; simplify_eq; try done. by apply IH.
Qed.

Lemma Strict_setField_conversion fieldValue value fieldValue' err :
  Strict.setField true fieldValue value = (fieldValue', Some err) -> conversion err = true.
Proof.
  unfold Strict.setField, Strict.parseSlice. cbn [negb].
  repeat case_match; intros; simplify_eq; try done.
  by eapply Strict_parseInts_conversion.
Qed.

Lemma Strict_fieldLoop_named environ fields fields' err :
  fieldLoop (Strict.iteration environ (Strict.parseStruct environ)) fields = (fields', Some err) ->
  named err = true.
Proof.
  revert fields' err. induction fields as [fields IH] using fields_nested_ind.
  intros fields' err Hl.
  destruct (fieldLoop_error_source _ _ _ _ Hl) as (f & v & Hin & Hb).
  rewrite Forall_forall in IH. specialize (IH _ Hin). simpl in IH.
  destruct (IsExported f) eqn:Hx; [|by rewrite iteration_unexported in Hb].
  destruct (Strict.nested v) eqn:Hn.
  - unfold Strict.iteration in Hb. rewrite Hx in Hb. cbn [negb] in Hb.
    destruct v as [| | | | | |target| |]; try done.
    + destruct target; try done. simpl in IH. rewrite parseStruct_struct in Hb.
      destruct (fieldLoop _ fields0) as [fs e] eqn:El. simpl in Hb. subst e. by eapply IH.
    + simpl in IH. rewrite parseStruct_struct in Hb.
      destruct (fieldLoop _ fields0) as [fs e] eqn:El. simpl in Hb. subst e. by eapply IH.
  - rewrite iteration_leaf in Hb by done.
    destruct (Strict.parseTag (Reflect.Tag f)) as [[tag ok] [e|]] eqn:Et.
    + apply Strict_parseTag_malformed in Et. by destruct ok; simpl in Hb; simplify_eq.
    + destruct ok; [|done].
      repeat case_match; simpl in Hb; simplify_eq; try done;
        by eapply Strict_setField_conversion.
Qed.

(** X27.  Every error [Parse] of the strict revision returns on a pointer
    to a struct names what failed: it is "invalid tag format for field"
    around an error of the tag, "required environment variable not set",
    or "failed to set field" around a conversion error or an unsupported
    type.  That holds of the errors of nested structs too, which come back
    as they are, under the name of their own field. *)
Theorem Strict_Parse_errors_named environ fields out err :
  Strict.Parse environ (record fields) = (out, Some err) ->
  named err = true.
Proof.
  intros HP. apply Parse_record_inv in HP as (fs & _ & Hl).
  by eapply Strict_fieldLoop_named.
Qed.

Lemma Loose_parseOptions_error parts opt def err :
  Loose.parseOptions parts opt def = inr err -> exists value, err = Loose.errInvalidDefault value.
Proof.
  revert opt def. induction parts as [|part parts IH]; intros opt def; [done|].
  cbn [Loose.parseOptions]. repeat case_match; intros; simplify_eq; eauto.
Qed.

Lemma Loose_parseInts_inr values err :
  Loose.parseInts values = inr err -> exists numErr, err = Loose.errParsingIntSlice numErr.
Proof.
  induction values as [|v values IH]; [done|].
  cbn [Loose.parseInts]. repeat case_match; intros; simplify_eq; eauto.
Qed.

(** X28.  Every error [Parse] of the loose revision returns names what
    failed: "error parsing field" around an error of the tag, "missing
    required env" with the variable, "error parsing slice field" around
    the error of an element or of the element type, or "error parsing int
    field". *)
Theorem Loose_Parse_errors_named environ obj out err :
  Loose.Parse environ obj = Loose.Returns out (Some err) ->
  looseNamed err = true.
Proof.
  intros HP. destruct (Loose_Parse_Returns _ _ _ _ HP)
    as [(o & fields & -> & Hv)|(_ & ? & _)]; [|done].
  rewrite (Loose_Parse_struct _ _ _ Hv) in HP.
  destruct (fieldLoop _ fields) as [fs e] eqn:El. simplify_eq.
  destruct (fieldLoop_error_source _ _ _ _ El) as (f & v & _ & Hb).
  unfold Loose.iteration, Loose.parseTag, Loose.parseSlice in Hb.
  repeat case_match; simpl in Hb; simplify_eq; try done.
  all: try match goal with
       | Hp : Loose.parseOptions _ _ _ = inr _ |- _ =>
           apply Loose_parseOptions_error in Hp as [? ->]
       | Hp : Loose.parseInts _ = inr _ |- _ =>
           apply Loose_parseInts_inr in Hp as [? ->]
       end; done.
Qed.
End ReportedErrors.

(** ** The further properties on concrete records *)

Section FurtherEvaluation.
Import Strings Strconv Reflect Os Options Examples Samples.

(** a field that is not exported, with a tag and a variable that is set *)
Lemma Strict_skipped_field_witness :
  exists fields' err,
    Strict.Parse secretEnv (record withSecret) = (record fields', err) /\
    fields' !! 0%nat
      = Some (mkStructField "secret" "main" [("env", "SECRET")], VString "keep") /\
    Strict.Parse secretEnv (record (delete 0%nat withSecret))
      = (record (delete 0%nat fields'), err).
Proof.
  apply (Strict_skipped_field secretEnv withSecret 0
           (mkStructField "secret" "main" [("env", "SECRET")]) (VString "keep")).
  - reflexivity.
  - left. reflexivity.
Defined.

(** [config] under the empty environment: [APP_NAME] is missing *)
Lemma Strict_required_unset_witness :
  (Strict.Parse ∅ (record config)).2 <> None /\
  forall pre',
    Strict.Parse ∅ (record (take 0 config)) = (record pre', None) ->
    Strict.Parse ∅ (record config) =
      (record (pre' ++ (field "AppName" "APP_NAME", VString "") :: drop 1 config),
       Some (Strict.errRequiredNotSet "APP_NAME")).
Proof.
  apply (Strict_required_unset ∅ config 0 (field "AppName" "APP_NAME") (VString "")
           (Strict.mkTag "APP_NAME" false "")); reflexivity.
Defined.

(** the record of the test "env overrides default" as a nested struct *)
Lemma Strict_nested_struct_witness :
  Strict.Parse emptyEnv (record [(inner, VStruct (withDefault "initial"))])
    = (record [(inner, VStruct (withDefault ""))], None) /\
  Strict.Parse emptyEnv (record [(inner, VPtr (VStruct (withDefault "initial")))])
    = (record [(inner, VPtr (VStruct (withDefault "")))], None).
Proof.
  apply (Strict_nested_struct emptyEnv inner (withDefault "initial") (withDefault "") None);
    reflexivity.
Defined.

Lemma Loose_Parse_keeps_type_witness :
  TypeOf <$> record configBound = TypeOf <$> record config.
Proof.
  apply (Loose_Parse_keeps_type configEnv (record config) (record configBound) None).
  reflexivity.
Defined.

Lemma Loose_Parse_idempotent_witness :
  Loose.Parse configEnv (record configBound) = Loose.Returns (record configBound) None.
Proof.
  apply (Loose_Parse_idempotent configEnv (record config) (record configBound) None).
  reflexivity.
Defined.

(** a boolean field whose variable is set *)
Lemma Loose_passed_over_field_witness :
  exists fields' err,
    Loose.Parse (debugEnv "true") (record (debug false)) = Loose.Returns (record fields') err /\
    fields' !! 1%nat = Some (field "Debug" "DEBUG", VBool false) /\
    Loose.Parse (debugEnv "true") (record (delete 1%nat (debug false)))
      = Loose.Returns (record (delete 1%nat fields')) err.
Proof.
  apply (Loose_passed_over_field (debugEnv "true") (debug false) 1
           (field "Debug" "DEBUG") (VBool false)).
  - reflexivity.
  - right. right. split; [reflexivity|].
    exists (Loose.mkTag "DEBUG" false ""). split; [reflexivity|].
    left. discriminate.
Defined.

(** [HOSTS] set to the empty string *)
Lemma Loose_required_missing_witness :
  (forall out, Loose.Parse hostsEnv (record hosts) <> Loose.Returns out None) /\
  forall pre',
    Loose.Parse hostsEnv (record (take 0 hosts)) = Loose.Returns (record pre') None ->
    Loose.Parse hostsEnv (record hosts) =
      Loose.Returns (record (pre' ++ (field "Hosts" "HOSTS", VSlice TString None) :: drop 1 hosts))
        (Some (Loose.errMissingRequired "HOSTS")).
Proof.
  apply (Loose_required_missing hostsEnv hosts 0 (field "Hosts" "HOSTS")
           (VSlice TString None) (Loose.mkTag "HOSTS" false "")); reflexivity.
Defined.

(** two defaults: the last one counts *)
Lemma Strict_parseTag_result_witness :
  Strict.Env (Strict.mkTag "APP_NAME" true "b") = "APP_NAME" /\ "APP_NAME" <> "" /\
  contains "APP_NAME" "," = false /\
  (Strict.Optional (Strict.mkTag "APP_NAME" true "b") = true
   <-> "optional" ∈ ["default=a"; "optional"; "default=b"]) /\
  Strict.Default (Strict.mkTag "APP_NAME" true "b") =
    match last (List.filter isDefault ["default=a"; "optional"; "default=b"]) with
    | Some part => sliceFrom 8 part
    | None => ""
    end /\
  contains (Strict.Default (Strict.mkTag "APP_NAME" true "b")) "," = false.
Proof.
  apply (Strict_parseTag_result [("env", "APP_NAME,default=a,optional,default=b")]
           "APP_NAME,default=a,optional,default=b" "APP_NAME"
           ["default=a"; "optional"; "default=b"]); reflexivity.
Defined.

(** an option that starts with [default], and an unknown option *)
Lemma Loose_parseTag_result_witness :
  Loose.Env (Loose.mkTag "APP_NAME" false "5") = "APP_NAME" /\ "APP_NAME" <> "" /\
  contains "APP_NAME" "," = false /\
  (Loose.Optional (Loose.mkTag "APP_NAME" false "5") = true
   <-> "optional" ∈ ["defaults=5"; "frobnicate"]) /\
  Loose.Default (Loose.mkTag "APP_NAME" false "5") =
    match last (List.filter (fun part => HasPrefix part "default") ["defaults=5"; "frobnicate"]) with
    | Some part => default "" (Cut part "=").2
    | None => ""
    end /\
  contains (Loose.Default (Loose.mkTag "APP_NAME" false "5")) "," = false.
Proof.
  apply (Loose_parseTag_result [("env", "APP_NAME,defaults=5,frobnicate")]
           "APP_NAME,defaults=5,frobnicate" "APP_NAME" ["defaults=5"; "frobnicate"]);
    reflexivity.
Defined.

(** ["300"] on an [int8] field: 44 *)
Lemma Strict_int_field_witness :
  - 2 ^ 63 <= 300 < 2 ^ 63 /\
  exists m,
    Strict.setField true (VInt Int8 0) "300" = (VInt Int8 m, None) /\
    - 2 ^ (bits Int8 - 1) <= m < 2 ^ (bits Int8 - 1) /\
    (m - 300) mod 2 ^ bits Int8 = 0 /\
    (- 2 ^ (bits Int8 - 1) <= 300 < 2 ^ (bits Int8 - 1) -> m = 300) /\
    (bits Int8 = 64 -> m = 300).
Proof.
  apply (Strict_int_field Int8 0 "300" 300). reflexivity.
Defined.

Example Strict_int8_wraps :
  Strict.setField true (VInt Int8 0) "300" = (VInt Int8 44, None).
Proof. reflexivity. Qed.

Lemma Loose_int_field_witness :
  exists n,
    ParseInt (Loose.resolve configEnv (Loose.mkTag "PORT" false "")) 64 = inl n /\
    - 2 ^ 63 <= n < 2 ^ 63 /\
    configBound !! 1%nat = Some (field "Port" "PORT", VInt Int n).
Proof.
  apply (Loose_int_field configEnv config configBound 1 (field "Port" "PORT") 0
           (Loose.mkTag "PORT" false "")); reflexivity.
Defined.

Lemma string_slice_round_trip_witness :
  (["a"; "b"; "c"] <> [""] ->
   Strict.parseSlice (Join ["a"; "b"; "c"] ",") TString = inl (stringSlice ["a"; "b"; "c"])) /\
  Strict.parseSlice (Join [""] ",") TString = inl (stringSlice []) /\
  (["a"; "b"; "c"] <> [] ->
   Loose.parseSlice (Join ["a"; "b"; "c"] ",") TString = inl (stringSlice ["a"; "b"; "c"])) /\
  Loose.parseSlice (Join [] ",") TString = inl (stringSlice [""]).
Proof.
  apply (string_slice_round_trip ["a"; "b"; "c"]). repeat constructor.
Defined.

(** [config] under [configEnv]: the first revision knows no default *)
Lemma Early_Parse_errors_witness :
  exists name,
    Early.errMissingRequired "DEFAULT_VAL" = Early.errMissingRequired name /\
    Getenv configEnv name = "".
Proof.
  apply (Early_Parse_errors configEnv (record config) (record configEarly)).
  reflexivity.
Defined.


(** the test "invalid int slice element": a field of type [[]int] *)
Lemma Early_slice_panics_witness :
  Early.Parse portsEnv (record ([] ++ (field "Ports" "PORTS", VSlice (TInt Int) None) :: []))
    = Early.Panics.
Proof.
  apply (Early_slice_panics portsEnv [] [] [] (field "Ports" "PORTS") (TInt Int) None
           (Early.mkTag "PORTS" false)); try reflexivity.
  - right. discriminate.
  - discriminate.
Defined.

(** the test "invalid int slice element" *)
Lemma Strict_Parse_errors_named_witness :
  Reports.named
    (Strict.errSetField "Ports"
       (Strict.errParseInt "invalid" (mkNumError "Atoi" "invalid" ErrSyntax))) = true.
Proof.
  apply (Strict_Parse_errors_named portsEnv ports (record ports)). reflexivity.
Defined.

Lemma Loose_Parse_errors_named_witness :
  Reports.looseNamed
    (Loose.errParsingSliceField "Ports"
       (Loose.errParsingIntSlice (mkNumError "Atoi" "invalid" ErrSyntax))) = true.
Proof.
  apply (Loose_Parse_errors_named portsEnv (record ports) (record ports)). reflexivity.
Defined.
End FurtherEvaluation.
